(** * Multimodal RAG backend: ingestion, dual store, retrieval and answer stream

    A shallow embedding of [src/backend/main.py].  The external collaborators
    (document partitioning, the PDF and imaging libraries, the embedding and
    generation models, uuid and clock) appear as explicit inputs or as fields
    of small records of oracles; everything the module itself decides is a
    Rocq function translated from the Python source.

    A Python [str] is modelled by the [string] of the bytes of its UTF-8
    encoding, so that concatenation, equality and [x in s] are those of the
    bytes; [chars] gives its characters, which [s[:n]] and [s.strip()] count
    and test. *)

From Stdlib Require Import ZArith QArith Ascii String.
From stdpp Require Import base option list strings gmap fin_maps pretty sorting.

Local Open Scope string_scope.
Local Open Scope list_scope.
Local Open Scope Z_scope.

(** ** Strings as the source uses them *)

Module Str.

Definition nl : string := String "010"%char EmptyString.

(** truthiness of a [str] *)
Definition nonempty (s : string) : bool :=
  match s with EmptyString => false | _ => true end.

(** [sep.join(l)] *)
Definition join (sep : string) (l : list string) : string := String.concat sep l.

(** A byte that continues the encoding of a character. *)
Definition is_continuation (c : ascii) : bool :=
  let n := nat_of_ascii c in ((128 <=? n) && (n <=? 191))%nat.

(** [s] goes on with a continuation byte. *)
Definition continues (s : string) : bool :=
  match s with
  | String d _ => is_continuation d
  | EmptyString => false
  end.

(** The characters of [s] in order, each as the bytes that encode it: a
    leading byte and the continuation bytes that follow it. *)
Fixpoint chars (s : string) : list string :=
  match s with
  | EmptyString => []
  | String c s' =>
      match chars s' with
      | ch :: rest =>
          if continues s' then String c ch :: rest else String c EmptyString :: ch :: rest
      | [] => [String c EmptyString]
      end
  end.

(** The number a run of continuation bytes adds to the bits read so far. *)
Fixpoint continued (bits : Z) (s : string) : Z :=
  match s with
  | EmptyString => bits
  | String c s' => continued (bits * 64 + (Z.of_nat (nat_of_ascii c) - 128)) s'
  end.

(** [ord(ch)] of a character given by its bytes. *)
Definition code_point (ch : string) : Z :=
  match ch with
  | EmptyString => 0
  | String c rest =>
      let n := Z.of_nat (nat_of_ascii c) in
      continued (if n <? 128 then n
                 else if n <? 224 then n - 192
                 else if n <? 240 then n - 224
                 else n - 240) rest
  end.

(** [s[:n]]: the first [n] characters. *)
Definition slice_to (n : nat) (s : string) : string := join "" (take n (chars s)).

(** [sub in s] *)
Fixpoint str_in (sub s : string) : bool :=
  if String.prefix sub s then true
  else match s with
       | EmptyString => false
       | String _ s' => str_in sub s'
       end.

(** Every character is below 128. *)
Fixpoint is_ascii (s : string) : bool :=
  match s with
  | EmptyString => true
  | String c s' => (nat_of_ascii c <? 128)%nat && is_ascii s'
  end.

Definition upper_char (c : ascii) : ascii :=
  let n := nat_of_ascii c in
  if ((97 <=? n) && (n <=? 122))%nat then ascii_of_nat (n - 32) else c.

(** [s.upper()] for a text of characters below 128: the letters a to z are
    mapped, every other byte is kept.  [str.upper] maps letters above 127 as
    well, some of them onto the letters A to Z; what is stated through
    [upper] says where it needs the text to be of characters below 128. *)
Fixpoint upper (s : string) : string :=
  match s with
  | EmptyString => EmptyString
  | String c s' => String (upper_char c) (upper s')
  end.

(** A character [strip()] removes: the white space of [str.isspace]. *)
Definition is_space (ch : string) : bool :=
  let n := code_point ch in
  ((0x09 <=? n) && (n <=? 0x0D)) || ((0x1C <=? n) && (n <=? 0x20))
  || (n =? 0x85) || (n =? 0xA0) || (n =? 0x1680)
  || ((0x2000 <=? n) && (n <=? 0x200A))
  || (n =? 0x2028) || (n =? 0x2029) || (n =? 0x202F) || (n =? 0x205F) || (n =? 0x3000).

(** [s.strip() == ""] *)
Definition all_space (s : string) : bool := forallb is_space (chars s).

End Str.

(** ** Results of calls that may raise *)

Inductive result (A : Type) : Type :=
| Ok (a : A)
| Raise (msg : string).
Arguments Ok {A} a.
Arguments Raise {A} msg.

(** ** Chat messages and the generation model *)

Inductive part :=
| TextPart (text : string)
| ImagePart (image_url : string).

Inductive content :=
| Plain (s : string)
| Parts (ps : list part).

Inductive message :=
| SystemMessage (c : string)
| HumanMessage (c : content).

(** A chat model answers [ainvoke] with the response content or raises;
    [astream] yields the contents of its chunks and then either stops or
    raises with a message. *)
Record chat_model := {
  ainvoke : list message -> result string;
  astream : list message -> list string * option string
}.

(** ** Elements *)

Inductive kind := image | table | text.

Definition kind_name (k : kind) : string :=
  match k with image => "image" | table => "table" | text => "text" end.

(** The dict-shaped element.  A key the source does not set for a kind is
    [None]; [page] distinguishes an absent key from a key holding [None]. *)
Record element := mk_element {
  doc_id : string;
  type : kind;
  original : string;
  source : string;
  page : option (option Z);
  image_index : option Z;
  chunk_index : option Z;
  text_content : option string;
  html_content : option string;
  summary : option string
}.

Definition set_summary (e : element) (s : string) : element :=
  mk_element (doc_id e) (type e) (original e) (source e) (page e)
             (image_index e) (chunk_index e) (text_content e) (html_content e)
             (Some s).

(** ** Summarizers *)

Definition IMAGE_PROMPT : string :=
  "Describe this image in detail. Focus on key visual elements, text, diagrams, charts, and any important information shown.".

Definition IMAGE_FALLBACK : string := "Image content could not be analyzed.".

(** The module-level [llm] handle: [None] until something assigns it.
    Calling a method on [None] raises inside the summarizer's [try]. *)
Definition llm_ainvoke (llm : option chat_model) (ms : list message) : result string :=
  match llm with
  | Some m => ainvoke m ms
  | None => Raise "'NoneType' object has no attribute 'ainvoke'"
  end.

Definition summarize_image_async (llm : option chat_model) (image_b64 : string) : string :=
  match llm_ainvoke llm [HumanMessage (Parts [TextPart IMAGE_PROMPT; ImagePart image_b64])] with
  | Ok c => c
  | Raise _ => IMAGE_FALLBACK
  end.

Definition table_prompt (table_html table_text : string) : string :=
  "Summarize the key information in this table concisely. Focus on main data points, trends, and relationships."
  +:+ Str.nl +:+ Str.nl +:+ "Table HTML:" +:+ Str.nl +:+ Str.slice_to 2000 table_html
  +:+ Str.nl +:+ Str.nl +:+ "Table Text:" +:+ Str.nl +:+ Str.slice_to 1000 table_text
  +:+ Str.nl +:+ Str.nl +:+ "Provide a clear, structured summary.".

Definition table_fallback (table_text : string) : string :=
  "Table content: " +:+ Str.slice_to 500 table_text.

Definition summarize_table_async (llm : option chat_model) (table_html table_text : string) : string :=
  match llm_ainvoke llm [HumanMessage (Plain (table_prompt table_html table_text))] with
  | Ok c => c
  | Raise _ => table_fallback table_text
  end.

Definition TEXT_PREFIX : string := "This document/research paper discusses: ".

Definition summarize_text_async (text_chunk : string) (page_num : option Z) (chunk_idx : Z) : string :=
  match page_num with
  | Some 1 => if chunk_idx =? 0 then TEXT_PREFIX +:+ text_chunk else text_chunk
  | _ => text_chunk
  end.

(** ** PDF image extraction *)

(** A [fitz.Pixmap]: components per pixel and size in pixels; the sample
    buffer stays with the imaging library. *)
Record pixmap := {
  pix_n : Z;
  pix_width : Z;
  pix_height : Z;
  pix_samples : list Z
}.

(** A vector drawing: its bounding rectangle and what
    [page.get_pixmap(clip=rect, dpi=150)] gives ([Raise] when it throws). *)
Record drawing := {
  rect_width : Q;
  rect_height : Q;
  get_pixmap : result pixmap
}.

(** A page: [fitz.Pixmap(doc, xref)] for each entry of
    [page.get_images(full=True)], and [page.get_drawings()]. *)
Record pdf_page := {
  get_images : list (result pixmap);
  get_drawings : list drawing
}.

(** The imaging collaborators: colourspace conversion,
    [Image.frombytes("RGB", [w, h], samples)], and PNG encoding followed by
    base64. *)
Record imaging := {
  pil_image : Type;
  to_csRGB : pixmap -> result pixmap;
  frombytes_RGB : Z -> Z -> list Z -> result pil_image;
  png_base64 : pil_image -> string
}.

Definition DATA_URI_PREFIX : string := "data:image/png;base64,".

Definition pil_to_data_uri (im : imaging) (img : pil_image im) : string :=
  DATA_URI_PREFIX +:+ png_base64 im img.

Definition Qlt_b (a b : Q) : bool := negb (Qle_bool b a).

(** One iteration of the raster loop: [None] when nothing is appended
    (skipped by [continue], or an exception caught and logged). *)
Definition raster_image (im : imaging) (r : result pixmap) : option string :=
  match r with
  | Raise _ => None
  | Ok pix =>
      if (pix_n pix <? 4) && ((pix_width pix <? 100) || (pix_height pix <? 100)) then None
      else
        let converted := if 4 <=? pix_n pix then to_csRGB im pix else Ok pix in
        match converted with
        | Raise _ => None
        | Ok pix' =>
            match frombytes_RGB im (pix_width pix') (pix_height pix') (pix_samples pix') with
            | Raise _ => None
            | Ok img_pil => Some (pil_to_data_uri im img_pil)
            end
        end
  end.

(** One iteration of the drawing loop. *)
Definition drawing_image (im : imaging) (d : drawing) : option string :=
  if Qlt_b (rect_width d) 100 || Qlt_b (rect_height d) 100 then None
  else
    match get_pixmap d with
    | Raise _ => None
    | Ok pix =>
        match frombytes_RGB im (pix_width pix) (pix_height pix) (pix_samples pix) with
        | Raise _ => None
        | Ok img_pil => Some (pil_to_data_uri im img_pil)
        end
    end.

Definition page_images (im : imaging) (p : pdf_page) : list string :=
  omap (raster_image im) (get_images p) ++ omap (drawing_image im) (get_drawings p).

(** [pdf_page_images]: the dict as its items in insertion order, keyed by the
    1-based page number; pages without images have no key. *)
Definition pdf_page_images (im : imaging) (doc : list pdf_page) : list (Z * list string) :=
  omap (fun '(pno, p) =>
          let images := page_images im p in
          match images with
          | [] => None
          | _ => Some (Z.of_nat pno + 1, images)
          end)
       (imap (fun pno p => (pno, p)) doc).

(** ** Stores and persisted records *)

(** Metadata of an index entry; every key is optional (the bootstrap entry
    has none). *)
Record metadata := {
  m_doc_id : option string;
  m_type : option kind;
  m_source : option string;
  m_page : option (option Z);
  m_chunk : option Z
}.

(** A LangChain [Document] held by the similarity index. *)
Record summary_doc := {
  page_content : string;
  doc_metadata : metadata
}.

Definition dummy_doc : summary_doc :=
  {| page_content := "initial empty doc";
     doc_metadata := {| m_doc_id := None; m_type := None; m_source := None;
                        m_page := None; m_chunk := None |} |}.

Record stats := {
  stats_images : nat;
  stats_tables : nat;
  stats_texts : nat
}.

(** A manifest record of [documents.json]. *)
Record document := {
  d_id : string;
  d_name : string;
  d_path : string;
  d_uploadedAt : string;
  d_preview : string;
  d_stats : stats
}.

Record chat_message := {
  sender : string;
  msg_text : string;
  msg_chunks : option (list summary_doc)
}.

(** A conversation of [chat_history.json]. *)
Record chat := {
  c_id : string;
  c_document_id : string;
  c_created_at : string;
  c_title : string;
  c_messages : list chat_message
}.

(** What the process keeps on disk: the saved FAISS index (absent until the
    first save), the content store, the manifest (absent when the file is
    missing or unreadable), the chat history and the files under uploads. *)
Record state := {
  index_file : option (list summary_doc);
  docstore : gmap string element;
  documents_file : option (list document);
  chat_history : gmap string chat;
  uploads : gset string
}.

(** The remaining collaborators of one request. *)
Record env := {
  env_imaging : imaging;
  (** the [n]-th [uuid.uuid4()] of one element build *)
  uuid4 : nat -> string;
  (** [text_splitter.split_text] *)
  split_text : string -> list string;
  (** whether the embedding call for a text returns *)
  embeds : string -> bool;
  (** [vectorstore.similarity_search(query, k=k)] *)
  similarity_search : list summary_doc -> string -> Z -> result (list summary_doc);
  (** the module-level [llm] *)
  llm : option chat_model;
  (** [get_llm_model(api_key)] *)
  llm_user : chat_model;
  (** the order in which the summarization tasks finish *)
  completion_order : list nat
}.

(** ** Progress events of an ingestion *)

Inductive status :=
| Progress (step message : string)
| ElementStatus (e : element)
| CompleteStatus (message : string) (doc : document) (c : chat).

(** ** Building the elements of one file *)

Record raw_image := {
  raw_image_uri : string;
  raw_image_page : option Z
}.

Record raw_table := {
  raw_table_text : string;
  raw_table_html : string
}.

(** What [load_file] and the PDF reader deliver for one file: the images and
    tables found by the partitioner, the non-empty text elements with their
    page number, and the PDF pages when the file is a PDF. *)
Record extraction := {
  image_elements_raw : list raw_image;
  table_elements_raw : list raw_table;
  text_elements_raw : list (string * option Z);
  pdf_doc : list pdf_page
}.

Definition lower_char (c : ascii) : ascii :=
  let n := nat_of_ascii c in
  if ((65 <=? n) && (n <=? 90))%nat then ascii_of_nat (n + 32) else c.

(** [s.lower()] for a text of characters below 128: the letters A to Z are
    mapped, every other byte is kept. *)
Fixpoint lower (s : string) : string :=
  match s with
  | EmptyString => EmptyString
  | String c s' => String (lower_char c) (lower s')
  end.

Fixpoint endswith (s suffix : string) : bool :=
  if String.eqb s suffix then true
  else match s with
       | EmptyString => false
       | String _ s' => endswith s' suffix
       end.

Definition with_ids (E : env) (start : nat) (fs : list (string -> element)) : list element :=
  imap (fun i f => f (uuid4 E (start + i)%nat)) fs.

Definition pdf_image_elements (fp : string) (imgs : list (Z * list string)) : list (string -> element) :=
  flat_map (fun '(page_no, image_uris) =>
              imap (fun idx img_b64 id =>
                      mk_element id image img_b64 fp (Some (Some page_no))
                                 (Some (Z.of_nat idx)) None None None None)
                   image_uris)
           imgs.

Definition raw_image_elements (fp : string) (raws : list raw_image) : list (string -> element) :=
  map (fun r id =>
         mk_element id image (raw_image_uri r) fp (Some (raw_image_page r))
                    None None None None None)
      raws.

Definition table_element (fp : string) (r : raw_table) (id : string) : element :=
  let table_text := raw_table_text r in
  let table_html :=
    if negb (Str.nonempty (raw_table_html r)) && Str.nonempty table_text
    then "<table><tr><td>" +:+ table_text +:+ "</td></tr></table>"
    else raw_table_html r in
  mk_element id table (if Str.nonempty table_html then table_html else table_text) fp
             None None None (Some table_text) (Some table_html) None.

(** [text_by_page]: texts grouped by page number, keys in first-seen order;
    elements with empty text are left out. *)
Fixpoint add_text (page_num : option Z) (t : string)
    (by_page : list (option Z * list string)) : list (option Z * list string) :=
  match by_page with
  | [] => [(page_num, [t])]
  | (p, ts) :: rest =>
      if decide (p = page_num) then (p, ts ++ [t]) :: rest
      else (p, ts) :: add_text page_num t rest
  end.

Definition text_by_page (raws : list (string * option Z)) : list (option Z * list string) :=
  foldl (fun acc '(t, page_num) => if Str.nonempty t then add_text page_num t acc else acc)
        [] raws.

Definition text_chunk_elements (E : env) (fp : string)
    (by_page : list (option Z * list string)) : list (string -> element) :=
  flat_map (fun '(page_num, texts) =>
              let page_text := Str.join Str.nl texts in
              imap (fun i chunk id =>
                      mk_element id text chunk fp (Some page_num) None
                                 (Some (Z.of_nat i)) None None None)
                   (split_text E page_text))
           by_page.

(** The summarization task of an element, by the list it is in. *)
Definition image_task (E : env) (e : element) : string :=
  summarize_image_async (llm E) (original e).

Definition table_task (E : env) (e : element) : string :=
  summarize_table_async (llm E) (default "" (html_content e)) (default "" (text_content e)).

Definition text_task (e : element) : string :=
  summarize_text_async (original e) (mjoin (page e)) (default 0 (chunk_index e)).

(** [asyncio.as_completed]: the results in the order the tasks finish. *)
Definition as_completed {A} (order : list nat) (tasks : list A) : list A :=
  omap (fun i => tasks !! i) order.

(** One of the three assignment loops: [elem["summary"] = summaries[summary_idx]]
    with the running index. *)
Fixpoint assign_summaries (summaries : list string) (summary_idx : nat)
    (elems : list element) : result (list element * nat) :=
  match elems with
  | [] => Ok ([], summary_idx)
  | elem :: rest =>
      match summaries !! summary_idx with
      | None => Raise "list index out of range"
      | Some s =>
          match assign_summaries summaries (S summary_idx) rest with
          | Ok (assigned, idx) => Ok (set_summary elem s :: assigned, idx)
          | Raise m => Raise m
          end
      end
  end.

Definition images_to_process (E : env) (fp : string) (x : extraction) : list element :=
  with_ids E 0
    (if endswith (lower fp) ".pdf"
     then pdf_image_elements fp (pdf_page_images (env_imaging E) (pdf_doc x))
     else raw_image_elements fp (image_elements_raw x)).

Definition tables_to_process (E : env) (fp : string) (x : extraction) : list element :=
  with_ids E (length (images_to_process E fp x))
    (map (table_element fp) (table_elements_raw x)).

Definition texts_to_process (E : env) (fp : string) (x : extraction) : list element :=
  with_ids E (length (images_to_process E fp x) + length (tables_to_process E fp x))
    (text_chunk_elements E fp (text_by_page (text_elements_raw x))).

Definition all_tasks (E : env) (fp : string) (x : extraction) : list string :=
  map (image_task E) (images_to_process E fp x)
  ++ map (table_task E) (tables_to_process E fp x)
  ++ map text_task (texts_to_process E fp x).

Definition summaries_of (E : env) (fp : string) (x : extraction) : list string :=
  as_completed (completion_order E) (all_tasks E fp x).

Definition count_message (pre : string) (n : nat) (post : string) : string :=
  pre +:+ pretty n +:+ post.

Definition summarizing_events (n total : nat) : list status :=
  map (fun i => Progress "summarizing"
                  ("Summarized element " +:+ pretty (S i) +:+ "/" +:+ pretty total +:+ "..."))
      (seq 0 n).

(** [build_multimodal_elements_streaming]: the statuses yielded before the
    elements, and the processed elements (or the exception that ends the
    generator). *)
Definition build_multimodal_elements_streaming (E : env) (fp : string) (x : extraction)
  : list status * result (list element) :=
  let image_elements_to_process := images_to_process E fp x in
  let table_elements_to_process := tables_to_process E fp x in
  let by_page := text_by_page (text_elements_raw x) in
  let text_elements_to_process := texts_to_process E fp x in
  let summaries := summaries_of E fp x in
  let head :=
    [Progress "extracting" "Partitioning document with Unstructured...";
     Progress "extracting" (count_message "Found " (length (image_elements_raw x)) " images.");
     Progress "extracting" (count_message "Found " (length (table_elements_raw x)) " tables.")]
    ++ match by_page with
       | [] => []
       | _ => [Progress "chunking" "Splitting text into chunks with page tracking...";
               Progress "chunking"
                 ("Created " +:+ pretty (length text_elements_to_process) +:+ " text chunks across "
                  +:+ pretty (length by_page) +:+ " pages.")]
       end
    ++ [Progress "summarizing" "Starting concurrent summarization of all elements..."]
    ++ summarizing_events (length summaries) (length (all_tasks E fp x)) in
  match assign_summaries summaries 0 image_elements_to_process with
  | Raise m => (head, Raise m)
  | Ok (imgs, idx1) =>
      match assign_summaries summaries idx1 table_elements_to_process with
      | Raise m => (head, Raise m)
      | Ok (tabs, idx2) =>
          match assign_summaries summaries idx2 text_elements_to_process with
          | Raise m => (head, Raise m)
          | Ok (txts, _) => (head, Ok (imgs ++ tabs ++ txts))
          end
      end
  end.

(** ** Loading or bootstrapping the similarity index *)

Definition set_index_file (st : state) (vs : list summary_doc) : state :=
  {| index_file := Some vs; docstore := docstore st;
     documents_file := documents_file st; chat_history := chat_history st;
     uploads := uploads st |}.

Definition set_docstore (st : state) (ds : gmap string element) : state :=
  {| index_file := index_file st; docstore := ds;
     documents_file := documents_file st; chat_history := chat_history st;
     uploads := uploads st |}.

Definition set_documents_file (st : state) (docs : list document) : state :=
  {| index_file := index_file st; docstore := docstore st;
     documents_file := Some docs; chat_history := chat_history st;
     uploads := uploads st |}.

Definition set_chat_history (st : state) (ch : gmap string chat) : state :=
  {| index_file := index_file st; docstore := docstore st;
     documents_file := documents_file st; chat_history := ch;
     uploads := uploads st |}.

Definition set_uploads (st : state) (fs : gset string) : state :=
  {| index_file := index_file st; docstore := docstore st;
     documents_file := documents_file st; chat_history := chat_history st;
     uploads := fs |}.

Definition EMBED_ERROR : string := "Error embedding content".

(** [get_vectorstore]: the saved index when there is one; otherwise a new
    index holding the placeholder entry, saved at once. *)
Definition get_vectorstore (E : env) (st : state) : result (list summary_doc) * state :=
  match index_file st with
  | Some vs => (Ok vs, st)
  | None =>
      if embeds E (page_content dummy_doc)
      then (Ok [dummy_doc], set_index_file st [dummy_doc])
      else (Raise EMBED_ERROR, st)
  end.

(** ** Indexing *)

Definition element_metadata (elem : element) : metadata :=
  {| m_doc_id := Some (doc_id elem);
     m_type := Some (type elem);
     m_source := Some (source elem);
     m_page := page elem;
     m_chunk := chunk_index elem |}.

Definition summary_document (elem : element) : summary_doc :=
  {| page_content := default "" (summary elem); doc_metadata := element_metadata elem |}.

(** The indexing loop over the elements in the order of
    [all_elements.items()]: content store first, then the index. *)
Fixpoint index_elements (E : env) (elems : list element) (total_indexed total_elements : nat)
    (ds : gmap string element) (vs : list summary_doc)
  : list status * gmap string element * result (list summary_doc) :=
  match elems with
  | [] => ([], ds, Ok vs)
  | elem :: rest =>
      let ev := Progress "indexing"
                  ("Indexing " +:+ kind_name (type elem) +:+ " element "
                   +:+ pretty (S total_indexed) +:+ "/" +:+ pretty total_elements +:+ "...") in
      let ds' := <[doc_id elem := elem]> ds in
      if embeds E (page_content (summary_document elem)) then
        let '(evs, ds'', r) :=
          index_elements E rest (S total_indexed) total_elements ds'
                         (vs ++ [summary_document elem]) in
        (ev :: evs, ds'', r)
      else ([ev], ds', Raise EMBED_ERROR)
  end.

Definition is_kind (k : kind) (e : element) : bool :=
  match k, type e with
  | image, image | table, table | text, text => true
  | _, _ => false
  end.

(** [all_elements] flattened in the order of its keys. *)
Definition all_elements_in_order (elems : list element) : list element :=
  filter (fun e => is_kind image e = true) elems
  ++ filter (fun e => is_kind table e = true) elems
  ++ filter (fun e => is_kind text e = true) elems.

Definition count_kind (k : kind) (elems : list element) : nat :=
  length (filter (fun e => is_kind k e = true) elems).

(** The per-kind lengths of [all_elements]. *)
Definition stats_of (processed : list element) : stats :=
  {| stats_images := count_kind image processed;
     stats_tables := count_kind table processed;
     stats_texts := count_kind text processed |}.

Definition stats_summary (pre : string) (s : stats) : string :=
  pre +:+ pretty (stats_texts s) +:+ " texts, " +:+ pretty (stats_images s)
  +:+ " images, " +:+ pretty (stats_tables s) +:+ " tables.".

(** The manifest update: the first record with the same name is updated in
    place, otherwise a new record is appended.  Returns the manifest to
    write and [new_document_record]. *)
Definition update_manifest (documents : list document)
    (doc_id original_filename fp now : string) (s : stats) : list document * document :=
  match list_find (fun doc => d_name doc = original_filename) documents with
  | Some (existing_doc_index, doc) =>
      let updated :=
        {| d_id := d_id doc; d_name := d_name doc; d_path := d_path doc;
           d_uploadedAt := now;
           d_preview := stats_summary "Re-indexed with " s;
           d_stats := s |} in
      (<[existing_doc_index := updated]> documents, updated)
  | None =>
      let new_document_record :=
        {| d_id := doc_id; d_name := original_filename; d_path := fp;
           d_uploadedAt := now;
           d_preview := stats_summary "Indexed with " s;
           d_stats := s |} in
      (documents ++ [new_document_record], new_document_record)
  end.

(** The per-request values an upload draws from uuid and the clock. *)
Record request := {
  req_doc_id : string;
  req_chat_id : string;
  req_uploaded_at : string;
  req_created_at : string
}.

Definition new_chat (r : request) (original_filename : string) : chat :=
  {| c_id := req_chat_id r; c_document_id := req_doc_id r;
     c_created_at := req_created_at r; c_title := original_filename;
     c_messages := [] |}.

(** [index_file_streaming]: the statuses yielded, the state left on disk and
    [Raise] when an exception ends the generator. *)
Definition index_file_streaming (E : env) (st : state) (fp : string) (r : request)
    (original_filename : string) (x : extraction) : list status * state * result unit :=
  match get_vectorstore E st with
  | (Raise m, st0) => ([], st0, Raise m)
  | (Ok vectorstore_user, st0) =>
      let ev0 := [Progress "extraction" ("Processing file: " +:+ original_filename)] in
      match build_multimodal_elements_streaming E fp x with
      | (evs_build, Raise m) => (ev0 ++ evs_build, st0, Raise m)
      | (evs_build, Ok processed) =>
          let elems := all_elements_in_order processed in
          let ev1 := [Progress "indexing" "Storing summaries and original documents..."] in
          match index_elements E elems 0 (length elems) (docstore st0) vectorstore_user with
          | (evs_index, ds, Raise m) =>
              (ev0 ++ evs_build ++ ev1 ++ evs_index, set_docstore st0 ds, Raise m)
          | (evs_index, ds, Ok vs) =>
              let st1 := set_index_file (set_docstore st0 ds) vs in
              let documents := default [] (documents_file st1) in
              let s := stats_of processed in
              let '(documents', new_document_record) :=
                update_manifest documents (req_doc_id r) original_filename fp
                                (req_uploaded_at r) s in
              let st2 := set_documents_file st1 documents' in
              let c := new_chat r original_filename in
              let st3 := set_chat_history st2 (<[req_chat_id r := c]> (chat_history st2)) in
              (ev0 ++ evs_build ++ ev1 ++ evs_index
                   ++ [Progress "saving" "Saving vector index to disk...";
                       Progress "manifest" "Updating document manifest...";
                       CompleteStatus "Processing complete!" new_document_record c],
               st3, Ok tt)
          end
      end
  end.

(** [upload_generator]: the setup status, the statuses of the indexing, and
    one error status when the indexing raises. *)
Definition upload_generator (E : env) (st : state) (tmp_path : string) (r : request)
    (filename : string) (x : extraction) : list status * state :=
  let '(evs, st', out) := index_file_streaming E st tmp_path r filename x in
  let setup := Progress "setup" ("Starting processing for " +:+ filename) in
  match out with
  | Ok _ => (setup :: evs, st')
  | Raise m => (setup :: evs ++ [Progress "error" m], st')
  end.

(** [upload_file_endpoint] for a request that carries its key and whose file
    is written: the file is stored under the fresh document id, then the
    indexing is streamed. *)
Definition upload_file_endpoint (E : env) (st : state) (r : request)
    (filename file_suffix : string) (x : extraction) : list status * state :=
  let permanent_path := "uploads/" +:+ req_doc_id r +:+ file_suffix in
  upload_generator E (set_uploads st ({[permanent_path]} ∪ uploads st))
                   permanent_path r filename x.

(** ** Retrieval and the answer stream *)

Definition SYSTEM_PROMPT_TEMPLATE : string :=
  "You are a helpful and knowledgeable document assistant. Your task is to answer questions based on the context provided below."
  +:+ Str.nl +:+ Str.nl
  +:+ "CRITICAL INSTRUCTIONS:" +:+ Str.nl
  +:+ "1. READ THE ENTIRE CONTEXT CAREFULLY before answering" +:+ Str.nl
  +:+ "2. Look for relevant information in ALL parts of the context (text, tables, and images)" +:+ Str.nl
  +:+ "3. If information is present in ANY form (direct statement, table, list, or implied), USE IT" +:+ Str.nl
  +:+ "4. Synthesize information from multiple sections if needed" +:+ Str.nl
  +:+ "5. Be thorough - check the entire context before saying information is not available"
  +:+ Str.nl +:+ Str.nl
  +:+ "FORMATTING RULES FOR CLEAN OUTPUT:" +:+ Str.nl
  +:+ "1. Write in clear, natural language" +:+ Str.nl
  +:+ "2. Use simple paragraphs with blank lines between them" +:+ Str.nl
  +:+ "3. For lists with multiple items, format each on a new line starting with '* '" +:+ Str.nl
  +:+ "4. When presenting scores or metrics, use format: '* **Score Value** on Dataset' (e.g., '* **28.4 BLEU** on WMT 2014 English-to-German')" +:+ Str.nl
  +:+ "5. ALWAYS cite sources: add [Page X] after each claim or list item" +:+ Str.nl
  +:+ "6. Keep paragraphs concise - 2-4 sentences max per paragraph" +:+ Str.nl
  +:+ "7. Use clear section breaks (blank lines) between different topics"
  +:+ Str.nl +:+ Str.nl
  +:+ "RESPONSE LENGTH GUIDELINES:" +:+ Str.nl
  +:+ "- Simple questions (what, who, when) → 2-3 sentences" +:+ Str.nl
  +:+ "- 'Explain' or 'describe' → One detailed paragraph" +:+ Str.nl
  +:+ "- 'In detail', 'comprehensive', 'thorough' → Multiple paragraphs with clear structure" +:+ Str.nl
  +:+ "- List questions → Complete list with '* ' prefix for each item"
  +:+ Str.nl +:+ Str.nl
  +:+ "ONLY say 'I cannot find this information in the provided context' if you have:" +:+ Str.nl
  +:+ "- Searched the ENTIRE context thoroughly" +:+ Str.nl
  +:+ "- Checked all text sections, tables, and image descriptions" +:+ Str.nl
  +:+ "- Confirmed the information is genuinely not present in any form".

(** Events of the query stream, by their [type] field. *)
Inductive sse_event :=
| EvContext (chunks : list summary_doc)
| EvChunk (content : string)
| EvEnd.

Definition doc_ids_of (summary_docs : list summary_doc) : list string :=
  omap (fun doc => m_doc_id (doc_metadata doc)) summary_docs.

(** [docstore.mget] followed by dropping the [None] results. *)
Definition resolve_originals (ds : gmap string element) (doc_ids : list string) : list element :=
  omap (fun id => ds !! id) doc_ids.

(** [elem.get("page", "Unknown")] inside an f-string. *)
Definition page_label (p : option (option Z)) : string :=
  match p with
  | None => "Unknown"
  | Some None => "None"
  | Some (Some n) => pretty n
  end.

Definition from_page (elem : element) : string :=
  "[From Page " +:+ page_label (page elem) +:+ "]" +:+ Str.nl +:+ original elem.

Definition originals_of_kind (k : kind) (originals : list element) : list element :=
  filter (fun e => is_kind k e = true) originals.

Definition human_text (query context : string) : string :=
  "Query: " +:+ query +:+ Str.nl +:+ Str.nl +:+ "Context:" +:+ Str.nl +:+ context
  +:+ Str.nl +:+ Str.nl +:+ "Answer:".

(** The system message and the human turn; at most four images ride along. *)
Definition build_messages (query context : string) (images : list string) : list message :=
  match images with
  | [] => [SystemMessage SYSTEM_PROMPT_TEMPLATE; HumanMessage (Plain (human_text query context))]
  | _ => [SystemMessage SYSTEM_PROMPT_TEMPLATE;
          HumanMessage (Parts (TextPart (human_text query context)
                               :: map ImagePart (take 4 images)))]
  end.

Definition stream_context (originals : list element) : string :=
  let texts := map from_page (originals_of_kind text originals) in
  let tables := map from_page (originals_of_kind table originals) in
  let context_parts :=
    match texts with [] => [] | _ => ["=== DOCUMENT TEXT ==="; Str.join (Str.nl +:+ Str.nl) texts] end
    ++ match tables with
       | [] => []
       | _ => [Str.nl +:+ Str.nl +:+ "=== TABLES AND STRUCTURED DATA ===";
               Str.join (Str.nl +:+ Str.nl) tables]
       end in
  match context_parts with
  | [] => "No context available."
  | _ => Str.join (Str.nl +:+ Str.nl) context_parts
  end.

Definition INDEX_RESPONSE : string :=
  "I apologize, but I encountered an issue processing your request. This may be due to content safety filters or an empty response from the AI. Please try rephrasing your question or asking something different.".

Definition SAFETY_RESPONSE : string :=
  "I apologize, but this query was blocked by content safety filters. Please try rephrasing your question.".

Definition GENERIC_RESPONSE : string :=
  "I encountered an error while processing your request. Please try again or rephrase your question.".

Definition APOLOGY : string :=
  "I apologize, but I couldn't generate a response. Please try rephrasing your question or provide more context.".

(** The [if] test of the [except] branch. *)
Definition mentions_index_error (error_msg : string) : bool :=
  Str.str_in "list index out of range" error_msg || Str.str_in "IndexError" error_msg.

(** The [elif] test of the [except] branch.  Read through [Str.upper], it is
    the program's test on an error text of characters below 128; on any other
    text it holds in the program whenever it holds here, since the letters
    a to z are upper-cased in place. *)
Definition mentions_safety (error_msg : string) : bool :=
  Str.str_in "SAFETY" (Str.upper error_msg) || Str.str_in "BLOCKED" (Str.upper error_msg).

(** The [except] branch: the reply chosen from the text of the exception. *)
Definition error_response (error_msg : string) : string :=
  if mentions_index_error error_msg then INDEX_RESPONSE
  else if mentions_safety error_msg then SAFETY_RESPONSE
  else GENERIC_RESPONSE.

(** The forwarded contents of a model stream: the non-empty ones. *)
Definition forwarded (contents : list string) : list string :=
  filter (fun c => Str.nonempty c = true) contents.

(** The body of the [async for]: chunks with empty content are passed over. *)
Fixpoint stream_chunks (contents : list string) (full_answer : string)
  : list sse_event * string :=
  match contents with
  | [] => ([], full_answer)
  | c :: rest =>
      if Str.nonempty c then
        let '(evs, full) := stream_chunks rest (full_answer +:+ c) in
        (EvChunk c :: evs, full)
      else stream_chunks rest full_answer
  end.

(** Step 2 of [answer_generator]: the stream, the [except] branch and the
    fallback for an answer without content. *)
Definition stream_answer (llm_stream : list string * option string) : list sse_event * string :=
  let '(evs, full_answer) := stream_chunks (fst llm_stream) "" in
  let '(evs1, full1) :=
    match snd llm_stream with
    | Some error_msg => (evs ++ [EvChunk (error_response error_msg)], error_response error_msg)
    | None => (evs, full_answer)
    end in
  if negb (Str.nonempty full1) || Str.all_space full1
  then (evs1 ++ [EvChunk APOLOGY], APOLOGY)
  else (evs1, full1).

Definition append_message (c : chat) (m : chat_message) : chat :=
  {| c_id := c_id c; c_document_id := c_document_id c; c_created_at := c_created_at c;
     c_title := c_title c; c_messages := c_messages c ++ [m] |}.

(** What one run of a query generator did. *)
Record answer_run := {
  run_events : list sse_event;
  run_llm_calls : list (list message);
  run_outcome : result unit;
  run_state : state
}.

(** Step 1 of [answer_generator] after the search: the originals behind the
    matched summaries, the context built from them and the messages for the
    model. *)
Definition retrieved_messages (ds : gmap string element) (query : string)
    (summary_docs : list summary_doc) : list message :=
  let originals := resolve_originals ds (doc_ids_of summary_docs) in
  let images := map original (originals_of_kind image originals) in
  let context := stream_context originals in
  build_messages query context images.

(** [answer_generator] *)
Definition answer_generator (E : env) (st : state) (chat_id query : string) (k : Z) : answer_run :=
  match get_vectorstore E st with
  | (Raise m, st0) => Build_answer_run [] [] (Raise m) st0
  | (Ok vectorstore_user, st0) =>
      match similarity_search E vectorstore_user query k with
      | Raise m => Build_answer_run [] [] (Raise m) st0
      | Ok summary_docs =>
          let chunks_for_json := summary_docs in
          let messages := retrieved_messages (docstore st0) query summary_docs in
          let '(evs, full_answer) := stream_answer (astream (llm_user E) messages) in
          let bot_message :=
            {| sender := "bot"; msg_text := full_answer; msg_chunks := Some chunks_for_json |} in
          let history := alter (fun c => append_message c bot_message) chat_id (chat_history st0) in
          Build_answer_run ([EvContext chunks_for_json] ++ evs ++ [EvEnd]) [messages] (Ok tt)
                           (set_chat_history st0 history)
      end
  end.

(** What an endpoint gives back: its response, an [HTTPException] with its
    status code and detail, or an exception nothing catches. *)
Inductive http (A : Type) : Type :=
| Response (a : A)
| HTTPException (status_code : Z) (detail : string)
| Unhandled (msg : string).
Arguments Response {A} a.
Arguments HTTPException {A} status_code detail.
Arguments Unhandled {A} msg.

(** [get_api_key_from_request]: the [X-API-Key] header, when present and not
    empty. *)
Definition get_api_key_from_request (x_api_key : option string) : http string :=
  match x_api_key with
  | Some api_key =>
      if Str.nonempty api_key then Response api_key
      else HTTPException 401 "API key is required. Please provide X-API-Key header."
  | None => HTTPException 401 "API key is required. Please provide X-API-Key header."
  end.

(** [query_chat_endpoint]: the key is asked for, the conversation looked up,
    the user turn saved, then the answer streams.  [E] holds the embedding
    and generation models that the request's key gives. *)
Definition query_chat_endpoint (E : env) (st : state) (x_api_key : option string)
    (chat_id query : string) (k : Z) : http answer_run :=
  match get_api_key_from_request x_api_key with
  | HTTPException status_code detail => HTTPException status_code detail
  | Unhandled m => Unhandled m
  | Response api_key =>
      match chat_history st !! chat_id with
      | None => HTTPException 404 "Chat session not found."
      | Some c =>
          let user_message := {| sender := "user"; msg_text := query; msg_chunks := None |} in
          let st' :=
            set_chat_history st (<[chat_id := append_message c user_message]> (chat_history st)) in
          Response (answer_generator E st' chat_id query k)
      end
  end.

(** ** The non-streaming [query_rag] *)

Record element_counts := {
  n_images : nat;
  n_tables : nat;
  n_texts : nat
}.

Record rag_answer := {
  answer : string;
  chunks : list summary_doc;
  element_types : option element_counts
}.

Definition NOTHING_FOUND : string := "No relevant documents found for your query.".

Definition rag_context (originals : list element) : string :=
  let texts := map original (originals_of_kind text originals) in
  let tables := map original (originals_of_kind table originals) in
  Str.join (Str.nl +:+ Str.nl)
    (match texts with [] => [] | _ => ["=== TEXT CONTEXT ===" +:+ Str.nl +:+ Str.join (Str.nl +:+ Str.nl) texts] end
     ++ match tables with [] => [] | _ => ["=== TABLE CONTEXT ===" +:+ Str.nl +:+ Str.join (Str.nl +:+ Str.nl) tables] end).

(** [query_rag] reads the module-level [vectorstore], [docstore] and [llm];
    returns its result and the calls it made to the generation model. *)
Definition query_rag (E : env) (vectorstore : option (list summary_doc))
    (ds : gmap string element) (query : string) (k : Z)
  : result rag_answer * list (list message) :=
  match vectorstore with
  | None => (Raise "'NoneType' object has no attribute 'similarity_search'", [])
  | Some vs =>
      match similarity_search E vs query k with
      | Raise m => (Raise m, [])
      | Ok [] => (Ok {| answer := NOTHING_FOUND; chunks := []; element_types := None |}, [])
      | Ok summary_docs =>
          match doc_ids_of summary_docs with
          | [] => (Ok {| answer := NOTHING_FOUND; chunks := summary_docs; element_types := None |}, [])
          | doc_ids =>
              let originals := resolve_originals ds doc_ids in
              let images := map original (originals_of_kind image originals) in
              let element_counts :=
                {| n_images := length images;
                   n_tables := length (originals_of_kind table originals);
                   n_texts := length (originals_of_kind text originals) |} in
              let messages := build_messages query (rag_context originals) images in
              match llm_ainvoke (llm E) messages with
              | Raise m => (Raise m, match llm E with Some _ => [messages] | None => [] end)
              | Ok response =>
                  (Ok {| answer := response; chunks := summary_docs;
                         element_types := Some element_counts |}, [messages])
              end
          end
      end
  end.

(** ** Deleting a conversation *)

Record delete_response := {
  del_message : string;
  del_chat_id : string;
  document_deleted : bool
}.

(** [documents.pop(i)] at the first record whose id matches. *)
Fixpoint pop_document (document_id : string) (documents : list document)
  : option document * list document :=
  match documents with
  | [] => (None, [])
  | doc :: rest =>
      if decide (d_id doc = document_id) then (Some doc, rest)
      else let '(found, rest') := pop_document document_id rest in (found, doc :: rest')
  end.

Definition other_chats_with_doc (document_id : string) (history : gmap string chat) : bool :=
  existsb (fun kc => bool_decide (c_document_id (snd kc) = document_id)) (map_to_list history).

(** [delete_chat_endpoint]; [Raise] carries the detail of the [HTTPException]
    the endpoint ends with.  The 404 raised for an unknown conversation is
    caught by the endpoint's own [except Exception] and wrapped. *)
Definition delete_chat_endpoint (st : state) (chat_id : string)
  : result delete_response * state :=
  match chat_history st !! chat_id with
  | None => (Raise "Failed to delete chat: 404: Chat session not found.", st)
  | Some c =>
      let document_id := c_document_id c in
      let st1 := set_chat_history st (delete chat_id (chat_history st)) in
      let kept := (Ok {| del_message := "Chat deleted successfully";
                         del_chat_id := chat_id; document_deleted := false |}, st1) in
      if Str.nonempty document_id && negb (other_chats_with_doc document_id (chat_history st1))
      then
        match documents_file st1 with
        | None => (Raise "Chat history not found.", st1)
        | Some documents =>
            match pop_document document_id documents with
            | (Some doc_to_delete, documents') =>
                let file_path := d_path doc_to_delete in
                let st2 := if Str.nonempty file_path
                           then set_uploads st1 (uploads st1 ∖ {[file_path]})
                           else st1 in
                (Ok {| del_message := "Chat and associated document deleted successfully";
                       del_chat_id := chat_id; document_deleted := true |},
                 set_documents_file st2 documents')
            | (None, _) => kept
            end
        end
      else kept
  end.

(** [get_document_by_id] *)
Definition get_document_by_id (docs : list document) (doc_id : string) : option document :=
  snd <$> list_find (fun doc => d_id doc = doc_id) docs.

(** ** The remaining endpoints *)

(** [validate_api_key_endpoint]; [embed_query] is the probe call
    [test_embeddings.embed_query("test")] for a key. *)
Definition validate_api_key_endpoint (embed_query : string -> result unit)
    (x_api_key : option string) : http (bool * string) :=
  match get_api_key_from_request x_api_key with
  | HTTPException code detail => HTTPException code detail
  | Unhandled m => Unhandled m
  | Response api_key =>
      match embed_query api_key with
      | Ok _ => Response (true, "API key is valid")
      | Raise error_msg =>
          if Str.str_in "API_KEY_INVALID" error_msg || Str.str_in "invalid" (lower error_msg)
          then HTTPException 401 "Invalid API key. Please check your Google Gemini API key."
          else HTTPException 500 ("Failed to validate API key: " +:+ error_msg)
      end
  end.

(** [get_document_file_endpoint]: the path served with its media type.  A
    file exists when it is among the stored uploads. *)
Definition get_document_file_endpoint (st : state) (doc_id : string) : http (string * string) :=
  match documents_file st with
  | None => Unhandled "documents.json"
  | Some docs =>
      match get_document_by_id docs doc_id with
      | None => HTTPException 404 "Document file not found."
      | Some doc =>
          if negb (Str.nonempty (d_path doc)) || negb (bool_decide (d_path doc ∈ uploads st))
          then HTTPException 404 "Document file not found."
          else Response (d_path doc, "application/pdf")
      end
  end.

(** A conversation as [get_chat_history_endpoint] returns it: with its
    document, or [None] in its place. *)
Record chat_session := {
  session_chat : chat;
  session_document : option document
}.

(** [get_chat_history_endpoint] *)
Definition get_chat_history_endpoint (st : state) (chat_id : string) : http chat_session :=
  match chat_history st !! chat_id with
  | None => HTTPException 404 "Chat session not found."
  | Some c =>
      match documents_file st with
      | None => Unhandled "documents.json"
      | Some docs =>
          Response {| session_chat := c;
                      session_document := get_document_by_id docs (c_document_id c) |}
      end
  end.

(** * Vocabulary of the statements *)

(** The elements of one file in submission order: images, tables, texts. *)
Definition to_process (E : env) (fp : string) (x : extraction) : list element :=
  images_to_process E fp x ++ tables_to_process E fp x ++ texts_to_process E fp x.

(** The summary an element's own task computes. *)
Definition own_summary (E : env) (e : element) : string :=
  match type e with
  | image => image_task E e
  | table => table_task E e
  | text => text_task e
  end.

(** The content store after writing [elems] in order. *)
Definition store_all (ds : gmap string element) (elems : list element) : gmap string element :=
  foldl (fun m e => <[doc_id e := e]> m) ds elems.

(** The element ids carried by the entries of the saved index. *)
Definition index_ids (st : state) : list string :=
  doc_ids_of (default [] (index_file st)).

(** The content store entries filed under an id. *)
Definition store_entries (id : string) (ds : gmap string element) : list (string * element) :=
  filter (fun kv => kv.1 = id) (map_to_list ds).

Definition summaries_resolvable (st : state) : Prop :=
  forall id, id ∈ index_ids st -> is_Some (docstore st !! id).

(** The disk at the first start: no saved index, empty manifest and history. *)
Definition start_up : state :=
  {| index_file := None; docstore := ∅; documents_file := Some [];
     chat_history := ∅; uploads := ∅ |}.

(** States the endpoints can produce from the first start. *)
Inductive reachable : state -> Prop :=
| reach_start : reachable start_up
| reach_upload E st r filename file_suffix x :
    reachable st ->
    reachable (snd (upload_file_endpoint E st r filename file_suffix x))
| reach_query E st x_api_key chat_id query k run :
    reachable st ->
    query_chat_endpoint E st x_api_key chat_id query k = Response run ->
    reachable (run_state run)
| reach_delete st chat_id :
    reachable st ->
    reachable (snd (delete_chat_endpoint st chat_id)).

(** The record an update in place leaves, and the record of a first upload. *)
Definition reindexed_record (doc : document) (now : string) (s : stats) : document :=
  {| d_id := d_id doc; d_name := d_name doc; d_path := d_path doc;
     d_uploadedAt := now; d_preview := stats_summary "Re-indexed with " s; d_stats := s |}.

Definition first_record (doc_id original_filename fp now : string) (s : stats) : document :=
  {| d_id := doc_id; d_name := original_filename; d_path := fp;
     d_uploadedAt := now; d_preview := stats_summary "Indexed with " s; d_stats := s |}.

(** The non-empty texts of the elements attributed to one page, in document
    order. *)
Definition texts_on_page (raws : list (string * option Z)) (page_num : option Z) : list string :=
  (filter (fun tp => tp.2 = page_num /\ Str.nonempty tp.1 = true) raws).*1.

(** The texts filed under a page number in the grouped dict. *)
Fixpoint page_entry (page_num : option Z) (by_page : list (option Z * list string))
  : option (list string) :=
  match by_page with
  | [] => None
  | (p, ts) :: rest => if decide (p = page_num) then Some ts else page_entry page_num rest
  end.

(** A text of continuation bytes only. *)
Fixpoint all_continuation (s : string) : bool :=
  match s with
  | EmptyString => true
  | String c s' => Str.is_continuation c && all_continuation s'
  end.

(** The bytes of one character: a byte and the continuation bytes after it. *)
Definition one_char (ch : string) : bool :=
  match ch with
  | String _ rest => all_continuation rest
  | EmptyString => false
  end.

(** The two statuses that end an upload stream. *)
Definition is_terminal (ev : status) : bool :=
  match ev with
  | CompleteStatus _ _ _ => true
  | Progress step _ => String.eqb step "error"
  | ElementStatus _ => false
  end.

(** The text a consumer has received from the model's chunks: the forwarded
    contents, concatenated. *)
Definition received (contents : list string) : string :=
  foldr String.append "" (forwarded contents).

(** The assistant turn saved after a stream. *)
Definition bot_message (full_answer : string) (chunks_for_json : list summary_doc) : chat_message :=
  {| sender := "bot"; msg_text := full_answer; msg_chunks := Some chunks_for_json |}.

(** The user turn saved before a stream. *)
Definition user_message (query : string) : chat_message :=
  {| sender := "user"; msg_text := query; msg_chunks := None |}.

(** ** Concrete collaborators used in the worked scenarios *)

Module Scenario.

Definition imaging_stub : imaging :=
  {| pil_image := pixmap;
     to_csRGB := Ok;
     frombytes_RGB := fun w h s =>
       Ok {| pix_n := 3; pix_width := w; pix_height := h; pix_samples := s |};
     png_base64 := fun _ => "iVBORw0KGgo=" |}.

(** A model that describes what it is shown and streams a short answer. *)
Definition describing_model : chat_model :=
  {| ainvoke := fun ms =>
       match ms with
       | [HumanMessage (Parts [_; ImagePart u])] => Ok ("A picture: " +:+ u)
       | [HumanMessage (Plain _)] => Ok "A table digest"
       | _ => Raise "unsupported"
       end;
     astream := fun _ => (["Revenue grew"; ""; " 12%."], None) |}.

(** A model whose stream yields [contents] and then raises when [err] is set. *)
Definition scripted_model (contents : list string) (err : option string) : chat_model :=
  {| ainvoke := fun _ => Raise "unavailable";
     astream := fun _ => (contents, err) |}.

Definition env_with (first_id : nat) (order : list nat) (global_llm : option chat_model)
    (user_llm : chat_model) (search : list summary_doc -> string -> Z -> result (list summary_doc))
  : env :=
  {| env_imaging := imaging_stub;
     uuid4 := fun n => "id-" +:+ pretty (first_id + n)%nat;
     split_text := fun s => [s];
     embeds := fun _ => true;
     similarity_search := search;
     llm := global_llm;
     llm_user := user_llm;
     completion_order := order |}.

Definition top_k (vs : list summary_doc) (q : string) (k : Z) : result (list summary_doc) :=
  Ok (take (Z.to_nat k) vs).

Definition no_match (vs : list summary_doc) (q : string) (k : Z) : result (list summary_doc) :=
  Ok [].

(** A DOCX with one picture on page 2 and one sentence on page 1. *)
Definition report : extraction :=
  {| image_elements_raw :=
       [{| raw_image_uri := "data:image/png;base64,AAA"; raw_image_page := Some 2 |}];
     table_elements_raw := [];
     text_elements_raw := [("Revenue grew 12% in Q3.", Some 1)];
     pdf_doc := [] |}.

Definition picture : element :=
  mk_element "id-0" image "data:image/png;base64,AAA" "report.docx" (Some (Some 2))
             None None None None None.

Definition sentence : element :=
  mk_element "id-1" text "Revenue grew 12% in Q3." "report.docx" (Some (Some 1))
             None (Some 0) None None None.

(** A table text of [n] arrows, each a character of three bytes. *)
Definition arrows (n : nat) : string := Str.join "" (repeat "→" n).

Definition first_upload : request :=
  {| req_doc_id := "doc-1"; req_chat_id := "chat-1";
     req_uploaded_at := "2025-01-01T10:00:00"; req_created_at := "2025-01-01T10:00:01" |}.

Definition second_upload : request :=
  {| req_doc_id := "doc-2"; req_chat_id := "chat-2";
     req_uploaded_at := "2025-01-02T09:00:00"; req_created_at := "2025-01-02T09:00:01" |}.

End Scenario.

(** ** Runs of the worked scenarios *)

Module Runs.
Import Scenario.

(** Summaries finish in submission order; the module-level model is unset. *)
Definition E : env := env_with 0 [0; 1]%nat None describing_model top_k.

(** The collaborators of a later upload: uuid4 moves on. *)
Definition E_again : env := env_with 2 [0; 1]%nat None describing_model top_k.

Definition E_no_match : env := env_with 0 [] None describing_model no_match.

Definition E_blocked : env :=
  env_with 0 [] None (scripted_model ["Revenue "; ""; "grew"] (Some "Response blocked: SAFETY")) top_k.




(** The model answers with a single no-break space (U+00A0). *)
Definition E_no_break_space : env :=
  env_with 0 [] None (scripted_model [String "194"%char (String "160"%char "")] None) top_k.

(** As [E], but the embedding service rejects the key: no text is embedded,
    and the search raises when it embeds the query. *)
Definition E_key_rejected : env :=
  {| env_imaging := env_imaging E; uuid4 := uuid4 E; split_text := split_text E;
     embeds := fun _ => false;
     similarity_search :=
       fun _ _ _ => Raise "400 API key not valid. Please pass a valid API key.";
     llm := llm E; llm_user := llm_user E;
     completion_order := completion_order E |}.

(** As [E], but the embedding call fails for the summary of the sentence. *)
Definition E_embed_fails : env :=
  {| env_imaging := env_imaging E; uuid4 := uuid4 E; split_text := split_text E;
     embeds := fun s => negb (Str.str_in "Revenue" s);
     similarity_search := similarity_search E; llm := llm E; llm_user := llm_user E;
     completion_order := completion_order E |}.

(** The disk after the first upload of report.docx. *)
Definition after_first : state :=
  snd (upload_file_endpoint E start_up first_upload "report.docx" ".docx" report).

Definition question : string := "What happened to revenue in Q3?".

End Runs.

(** * Properties *)

(** ** Summarization: completion order and reassembly *)

Section Reassembly.

Lemma assign_summaries_ok (summaries : list string) (elems : list element) (idx : nat) :
  (idx + length elems <= length summaries)%nat ->
  assign_summaries summaries idx elems
  = Ok (zip_with set_summary elems (drop idx summaries), (idx + length elems)%nat).
Proof.
  revert idx. induction elems as [|e rest IH]; intros idx Hlen; simpl in *.
  - by rewrite Nat.add_0_r.
  - destruct (summaries !! idx) as [s|] eqn:Hs.
    + rewrite IH by lia.
      rewrite (drop_S _ _ _ Hs). simpl.
      do 3 f_equal. lia.
    + apply lookup_ge_None in Hs. lia.
Qed.

Lemma zip_with_app_drop {A B C} (f : A -> B -> C) (a b : list A) (l : list B) :
  zip_with f (a ++ b) l = zip_with f a l ++ zip_with f b (drop (length a) l).
Proof.
  revert l. induction a as [|y a IH]; intros [|z l]; simpl; try done.
  - by destruct b.
  - by rewrite IH.
Qed.

Lemma as_completed_length {A} (order : list nat) (tasks : list A) :
  order ≡ₚ seq 0 (length tasks) ->
  length (as_completed order tasks) = length tasks.
Proof.
  intros Hperm.
  assert (Hin : forall i, i ∈ order -> (i < length tasks)%nat).
  { intros i Hi. rewrite Hperm in Hi. apply elem_of_seq in Hi. lia. }
  rewrite <- (length_seq (length tasks) 0), <- Hperm.
  clear Hperm. unfold as_completed.
  induction order as [|i order IH]; simpl; [done|].
  destruct (lookup_lt_is_Some_2 tasks i) as [a Ha]; [apply Hin; left|].
  rewrite Ha. simpl. f_equal. apply IH. intros j Hj. apply Hin. by right.
Qed.

Lemma as_completed_lookup {A} (order : list nat) (tasks : list A) (pos i : nat) :
  order ≡ₚ seq 0 (length tasks) ->
  order !! pos = Some i ->
  as_completed order tasks !! pos = tasks !! i.
Proof.
  intros Hperm.
  assert (Hin : forall j, j ∈ order -> (j < length tasks)%nat).
  { intros j Hj. rewrite Hperm in Hj. apply elem_of_seq in Hj. lia. }
  clear Hperm. revert pos. unfold as_completed.
  induction order as [|j order IH]; intros pos Hpos; [done|].
  simpl. destruct (lookup_lt_is_Some_2 tasks j) as [a Ha]; [apply Hin; left|].
  rewrite Ha. destruct pos as [|pos]; simpl in *.
  - by simplify_eq.
  - apply IH; [|done]. intros j' Hj'. apply Hin. by right.
Qed.

Lemma as_completed_in_order {A} (tasks : list A) :
  as_completed (seq 0 (length tasks)) tasks = tasks.
Proof.
  apply list_eq. intros i.
  destruct (decide (i < length tasks)%nat) as [Hlt|Hge].
  - rewrite (as_completed_lookup _ _ i i); [done|done|].
    by apply lookup_seq_lt.
  - rewrite !lookup_ge_None_2; [done|lia|].
    rewrite as_completed_length; [lia|done].
Qed.

Variables (E : env) (fp : string) (x : extraction).

Lemma all_tasks_length : length (all_tasks E fp x) = length (to_process E fp x).
Proof. unfold all_tasks, to_process. by rewrite !length_app, !length_map. Qed.

(** With a complete completion order the generator ends normally and every
    element receives the summary found at its own position in the
    completion-ordered list. *)
Lemma build_elements_positional :
  completion_order E ≡ₚ seq 0 (length (all_tasks E fp x)) ->
  snd (build_multimodal_elements_streaming E fp x)
  = Ok (zip_with set_summary (to_process E fp x) (summaries_of E fp x)).
Proof.
  intros Hperm.
  pose proof (as_completed_length _ _ Hperm) as Hlen.
  fold (summaries_of E fp x) in Hlen. rewrite all_tasks_length in Hlen.
  unfold to_process in *. rewrite !length_app in Hlen.
  unfold build_multimodal_elements_streaming.
  rewrite assign_summaries_ok by lia.
  rewrite assign_summaries_ok by lia.
  rewrite assign_summaries_ok by lia.
  simpl. f_equal.
  set (imgs := images_to_process E fp x) in *.
  set (tabs := tables_to_process E fp x) in *.
  set (txts := texts_to_process E fp x) in *.
  set (ss := summaries_of E fp x) in *.
  rewrite drop_0, !zip_with_app_drop, drop_drop. done.
Qed.

End Reassembly.

(** When the tasks finish in submission order every element carries the
    summary of its own task. *)
Lemma in_order_completion_pairs_each_element (E : env) (fp : string) (x : extraction) :
  completion_order E = seq 0 (length (all_tasks E fp x)) ->
  snd (build_multimodal_elements_streaming E fp x)
  = Ok (zip_with set_summary (to_process E fp x) (all_tasks E fp x)).
Proof.
  intros Horder. rewrite build_elements_positional by (by rewrite Horder).
  unfold summaries_of. by rewrite Horder, as_completed_in_order.
Qed.

(** For any complete completion order, the element at position [pos] of the
    submission order receives the result of whichever task finished at
    position [pos]. *)
Lemma element_gets_summary_at_completion_position (E : env) (fp : string) (x : extraction)
    (pos i : nat) (e : element) (s : string) :
  completion_order E ≡ₚ seq 0 (length (all_tasks E fp x)) ->
  to_process E fp x !! pos = Some e ->
  completion_order E !! pos = Some i ->
  all_tasks E fp x !! i = Some s ->
  exists elems, snd (build_multimodal_elements_streaming E fp x) = Ok elems
                /\ elems !! pos = Some (set_summary e s).
Proof.
  intros Hperm He Hpos Hs. eexists. split; [by apply build_elements_positional|].
  rewrite lookup_zip_with, He. simpl.
  unfold summaries_of. by rewrite (as_completed_lookup _ _ pos i Hperm Hpos), Hs.
Qed.

(** C1: The summary given to an element is the one found at the element's
    position in completion order, not the one computed from its content.
    For a document with one picture and one sentence whose text task finishes
    first, the picture is stored with the sentence's summary and the sentence
    with the summary of the picture. *)
Theorem reordered_completion_swaps_summaries :
  let E := Scenario.env_with 0 [1; 0]%nat None Scenario.describing_model Scenario.top_k in
  to_process E "report.docx" Scenario.report = [Scenario.picture; Scenario.sentence]
  /\ completion_order E ≡ₚ seq 0 (length (all_tasks E "report.docx" Scenario.report))
  /\ snd (build_multimodal_elements_streaming E "report.docx" Scenario.report)
     = Ok [set_summary Scenario.picture (own_summary E Scenario.sentence);
           set_summary Scenario.sentence (own_summary E Scenario.picture)]
  /\ own_summary E Scenario.picture <> own_summary E Scenario.sentence.
Proof.
  intros E. split; [reflexivity|]. split; [|split].
  - vm_compute. apply Permutation_swap.
  - reflexivity.
  - vm_compute. discriminate.
Qed.

(** ** Ingestion: what a completed run leaves on disk *)

Lemma store_all_lookup (elems : list element) (ds : gmap string element) (id : string) :
  is_Some (store_all ds elems !! id) <-> is_Some (ds !! id) \/ id ∈ map doc_id elems.
Proof.
  revert ds. induction elems as [|e rest IH]; intros ds; simpl.
  - split; [by left|]. intros [H|H]; [done|]. by apply elem_of_nil in H.
  - rewrite IH, lookup_insert_is_Some, elem_of_cons.
    split.
    + intros [[Heq|[_ Hds]]|Hrest]; auto.
    + intros [Hds|[Heq|Hrest]]; auto.
      destruct (decide (doc_id e = id)); auto.
Qed.

Lemma index_elements_ok (E : env) (elems : list element) (n total : nat)
    (ds ds' : gmap string element) (vs vs' : list summary_doc) (evs : list status) :
  index_elements E elems n total ds vs = (evs, ds', Ok vs') ->
  vs' = vs ++ map summary_document elems /\ ds' = store_all ds elems.
Proof.
  revert n ds vs evs. induction elems as [|e rest IH]; intros n ds vs evs; simpl.
  - intros [= <- <- <-]. by rewrite app_nil_r.
  - destruct (embeds E _); [|done].
    destruct (index_elements E rest _ _ _ _) as [[evs0 ds0] r0] eqn:Hrest.
    intros [= <- <- ->]. apply IH in Hrest as [-> ->].
    by rewrite <- app_assoc.
Qed.

Lemma index_elements_keeps (E : env) (elems : list element) (n total : nat)
    (ds : gmap string element) (vs : list summary_doc) (id : string) :
  is_Some (ds !! id) ->
  is_Some ((index_elements E elems n total ds vs).1.2 !! id).
Proof.
  revert n ds vs. induction elems as [|e rest IH]; intros n ds vs Hid; simpl; [done|].
  assert (is_Some (<[doc_id e := e]> ds !! id)) as Hid'.
  { rewrite lookup_insert_is_Some. destruct (decide (doc_id e = id)); auto. }
  destruct (embeds E _); [|done].
  specialize (IH (S n) _ (vs ++ [summary_document e]) Hid').
  by destruct (index_elements E rest _ _ _ _) as [[evs0 ds0] r0].
Qed.

Lemma get_vectorstore_frame (E : env) (st : state) :
  let st0 := snd (get_vectorstore E st) in
  docstore st0 = docstore st /\ documents_file st0 = documents_file st
  /\ chat_history st0 = chat_history st /\ uploads st0 = uploads st.
Proof. unfold get_vectorstore. destruct (index_file st); [done|]. by destruct (embeds E _). Qed.

Lemma get_vectorstore_saved (E : env) (st : state) (vs : list summary_doc) :
  fst (get_vectorstore E st) = Ok vs -> index_file (snd (get_vectorstore E st)) = Some vs.
Proof.
  unfold get_vectorstore. destruct (index_file st) eqn:Hi; simpl.
  - by intros [= ->].
  - destruct (embeds E _); simpl; [by intros [= <-]|done].
Qed.

(** The state a completed ingestion leaves behind. *)
Lemma index_file_streaming_complete (E : env) (st st' : state) (fp : string) (r : request)
    (original_filename : string) (x : extraction) (evs : list status) :
  index_file_streaming E st fp r original_filename x = (evs, st', Ok tt) ->
  exists vs processed,
    fst (get_vectorstore E st) = Ok vs
    /\ snd (build_multimodal_elements_streaming E fp x) = Ok processed
    /\ index_file st' = Some (vs ++ map summary_document (all_elements_in_order processed))
    /\ docstore st' = store_all (docstore st) (all_elements_in_order processed)
    /\ documents_file st'
       = Some (fst (update_manifest (default [] (documents_file st)) (req_doc_id r)
                                    original_filename fp (req_uploaded_at r)
                                    (stats_of processed)))
    /\ chat_history st' = <[req_chat_id r := new_chat r original_filename]> (chat_history st)
    /\ uploads st' = uploads st.
Proof.
  unfold index_file_streaming.
  pose proof (get_vectorstore_frame E st) as (Hds & Hdocs & Hch & Hup).
  destruct (get_vectorstore E st) as [[vs|m] st0] eqn:Hvs; [|done].
  simpl in *.
  destruct (build_multimodal_elements_streaming E fp x) as [evsb [processed|m]] eqn:Hb; [|done].
  destruct (index_elements E _ _ _ _ _) as [[evsi ds] [vs'|m]] eqn:Hi; [|done].
  apply index_elements_ok in Hi as [-> ->].
  simpl. rewrite Hdocs.
  destruct (update_manifest _ _ _ _ _ _) as [docs' rec] eqn:Hm.
  intros [= <- <-]. exists vs, processed. simpl.
  rewrite Hds, Hch, Hup, Hm. done.
Qed.

(** ** The two stores share their ids *)

Lemma filter_key_unique {A} (l : list (string * A)) (k : string) (v : A) :
  NoDup l.*1 -> (k, v) ∈ l -> length (filter (fun kv => kv.1 = k) l) = 1%nat.
Proof.
  induction l as [|[k' v'] l IH]; intros Hnd Hin; [by apply elem_of_nil in Hin|].
  apply NoDup_cons in Hnd as [Hk' Hnd]. apply elem_of_cons in Hin as [Heq|Hin].
  - simplify_eq. rewrite filter_cons_True by done. simpl. f_equal.
    destruct (filter (fun kv : string * A => kv.1 = k') l) as [|[k2 v2] others] eqn:Hf; [done|].
    exfalso. assert ((k2, v2) ∈ filter (fun kv : string * A => kv.1 = k') l) as Hin2
      by (rewrite Hf; left).
    apply list_elem_of_filter in Hin2 as [Hk2 Hin2]. simpl in Hk2. subst.
    apply Hk'. apply list_elem_of_fmap. by exists (k', v2).
  - destruct (decide (k' = k)) as [->|Hne].
    + exfalso. apply Hk'. apply list_elem_of_fmap. by exists (k, v).
    + rewrite filter_cons_False by done. by apply IH.
Qed.

Lemma store_entries_unique (ds : gmap string element) (id : string) :
  is_Some (ds !! id) -> length (store_entries id ds) = 1%nat.
Proof.
  intros [e He]. apply (filter_key_unique _ id e).
  - apply NoDup_fst_map_to_list.
  - by apply elem_of_map_to_list.
Qed.

Lemma doc_ids_of_app (vs ws : list summary_doc) :
  doc_ids_of (vs ++ ws) = doc_ids_of vs ++ doc_ids_of ws.
Proof. apply omap_app. Qed.

Lemma doc_ids_of_summary_documents (elems : list element) :
  doc_ids_of (map summary_document elems) = map doc_id elems.
Proof. induction elems as [|e rest IH]; simpl; [done|]. by rewrite <- IH. Qed.

Lemma elem_of_all_elements_in_order (e : element) (elems : list element) :
  e ∈ all_elements_in_order elems <-> e ∈ elems.
Proof.
  unfold all_elements_in_order. rewrite !elem_of_app, !list_elem_of_filter.
  unfold is_kind. destruct (type e); intuition congruence.
Qed.

Lemma assign_summaries_ids (summaries : list string) (elems out : list element) (idx idx' : nat) :
  assign_summaries summaries idx elems = Ok (out, idx') ->
  map doc_id out = map doc_id elems.
Proof.
  revert idx out. induction elems as [|e rest IH]; intros idx out; simpl.
  - by intros [= <- _].
  - destruct (summaries !! idx); [|done].
    destruct (assign_summaries summaries (S idx) rest) as [[d i]|m] eqn:Hrest; [|done].
    intros [= <- <-]. simpl. f_equal. by eapply IH.
Qed.

Lemma build_elements_ids (E : env) (fp : string) (x : extraction) (processed : list element) :
  snd (build_multimodal_elements_streaming E fp x) = Ok processed ->
  map doc_id processed = map doc_id (to_process E fp x).
Proof.
  unfold build_multimodal_elements_streaming, to_process.
  destruct (assign_summaries _ 0 _) as [[imgs i1]|m] eqn:H1; [|done].
  destruct (assign_summaries _ i1 _) as [[tabs i2]|m] eqn:H2; [|done].
  destruct (assign_summaries _ i2 _) as [[txts i3]|m] eqn:H3; [|done].
  simpl. intros [= <-]. rewrite !map_app.
  by rewrite (assign_summaries_ids _ _ _ _ _ H1), (assign_summaries_ids _ _ _ _ _ H2),
       (assign_summaries_ids _ _ _ _ _ H3).
Qed.

Lemma get_vectorstore_resolvable (E : env) (st : state) :
  summaries_resolvable st -> summaries_resolvable (snd (get_vectorstore E st)).
Proof.
  unfold get_vectorstore. destruct (index_file st) eqn:Hi; [done|].
  destruct (embeds E _); [|done]. intros _ id Hid. by apply elem_of_nil in Hid.
Qed.

Lemma index_file_streaming_resolvable (E : env) (st : state) (fp : string) (r : request)
    (original_filename : string) (x : extraction) :
  summaries_resolvable st ->
  summaries_resolvable (index_file_streaming E st fp r original_filename x).1.2.
Proof.
  intros Hst. apply (get_vectorstore_resolvable E) in Hst.
  unfold index_file_streaming.
  pose proof (get_vectorstore_saved E st) as Hsaved.
  destruct (get_vectorstore E st) as [[vs|m] st0]; [|done]. simpl in *.
  specialize (Hsaved vs eq_refl).
  destruct (build_multimodal_elements_streaming E fp x) as [evsb [processed|m]]; [|done].
  pose proof (index_elements_keeps E (all_elements_in_order processed) 0
                (length (all_elements_in_order processed)) (docstore st0) vs) as Hkeep.
  destruct (index_elements E _ _ _ _ _) as [[evsi ds] [vs'|m]] eqn:Hi; simpl in *.
  - apply index_elements_ok in Hi as [-> ->].
    destruct (update_manifest _ _ _ _ _ _) as [docs' rec]. simpl.
    intros id. unfold index_ids. simpl.
    rewrite doc_ids_of_app, doc_ids_of_summary_documents, elem_of_app, store_all_lookup.
    intros [Hid|Hid]; [left|by right].
    apply Hst. unfold index_ids. by rewrite Hsaved.
  - intros id Hid. simpl. apply Hkeep, Hst. done.
Qed.

Lemma answer_generator_resolvable (E : env) (st : state) (chat_id query : string) (k : Z) :
  summaries_resolvable st ->
  summaries_resolvable (run_state (answer_generator E st chat_id query k)).
Proof.
  intros Hst. apply (get_vectorstore_resolvable E) in Hst. unfold answer_generator.
  destruct (get_vectorstore E st) as [[vs|m] st0]; [|done]. simpl in *.
  destruct (similarity_search E vs query k); [|done].
  by destruct (stream_answer _).
Qed.

Lemma delete_chat_endpoint_stores (st : state) (chat_id : string) :
  index_file (snd (delete_chat_endpoint st chat_id)) = index_file st
  /\ docstore (snd (delete_chat_endpoint st chat_id)) = docstore st.
Proof.
  unfold delete_chat_endpoint.
  destruct (chat_history st !! chat_id) as [c|]; [|done].
  destruct (_ && _); [|done]. simpl.
  destruct (documents_file st); [|done].
  destruct (pop_document _ _) as [[d|] docs']; [|done].
  simpl. by destruct (Str.nonempty (d_path d)).
Qed.

(** Every id in the saved index resolves in the content store, in every
    state the endpoints can reach. *)
Lemma reachable_resolvable (st : state) : reachable st -> summaries_resolvable st.
Proof.
  induction 1 as [|E st r fn suf x _ IH|E st key c q k run _ IH Hq|st c _ IH].
  - intros id Hid. by apply elem_of_nil in Hid.
  - unfold upload_file_endpoint, upload_generator.
    pose proof (index_file_streaming_resolvable E
                  (set_uploads st ({[("uploads/" +:+ req_doc_id r +:+ suf)]} ∪ uploads st))
                  ("uploads/" +:+ req_doc_id r +:+ suf) r fn x IH) as Hres.
    destruct (index_file_streaming _ _ _ _ _ _) as [[evs st'] [u|m]]; exact Hres.
  - unfold query_chat_endpoint in Hq.
    destruct (get_api_key_from_request key); [|done..].
    destruct (chat_history st !! c); [|done]. injection Hq as <-.
    by apply answer_generator_resolvable.
  - destruct (delete_chat_endpoint_stores st c) as [Hi Hd].
    intros id Hid. unfold index_ids in Hid. rewrite Hi in Hid. rewrite Hd. by apply IH.
Qed.

(** C2: After an ingestion that reaches [complete], every element id present
    in the similarity index has exactly one content store entry under the same
    id, and every element written to the content store by this ingestion has
    an entry in the similarity index. *)
Theorem completed_ingestion_leaves_no_orphans (E : env) (st st' : state) (fp : string)
    (r : request) (original_filename : string) (x : extraction) (evs : list status) :
  reachable st ->
  index_file_streaming E st fp r original_filename x = (evs, st', Ok tt) ->
  (forall id, id ∈ index_ids st' -> length (store_entries id (docstore st')) = 1%nat)
  /\ (forall e, e ∈ to_process E fp x ->
        length (store_entries (doc_id e) (docstore st')) = 1%nat
        /\ doc_id e ∈ index_ids st').
Proof.
  intros Hreach Hrun.
  pose proof (index_file_streaming_resolvable E st fp r original_filename x
                (reachable_resolvable st Hreach)) as Hres.
  rewrite Hrun in Hres. simpl in Hres.
  split.
  - intros id Hid. by apply store_entries_unique, Hres.
  - intros e He.
    apply index_file_streaming_complete in Hrun
      as (vs & processed & _ & Hb & Hidx & Hds & _).
    assert (doc_id e ∈ index_ids st') as Hin.
    { unfold index_ids. rewrite Hidx. simpl.
      rewrite doc_ids_of_app, doc_ids_of_summary_documents, elem_of_app. right.
      apply build_elements_ids in Hb.
      assert (doc_id e ∈ map doc_id processed) as Hp.
      { rewrite Hb. apply list_elem_of_fmap. by exists e. }
      apply list_elem_of_fmap in Hp as (e' & -> & He').
      apply list_elem_of_fmap. exists e'. split; [done|].
      by apply elem_of_all_elements_in_order. }
    split; [|done]. by apply store_entries_unique, Hres.
Qed.

(** ** The manifest and the conversation created by an ingestion *)

Lemma update_manifest_existing (documents : list document)
    (doc_id original_filename fp now : string) (s : stats) :
  (exists doc, doc ∈ documents /\ d_name doc = original_filename) ->
  exists i doc,
    documents !! i = Some doc
    /\ d_name doc = original_filename
    /\ (forall j other, documents !! j = Some other -> (j < i)%nat ->
                        d_name other <> original_filename)
    /\ update_manifest documents doc_id original_filename fp now s
       = (<[i := reindexed_record doc now s]> documents, reindexed_record doc now s).
Proof.
  intros (doc0 & Hin & Hname). unfold update_manifest.
  destruct (list_find _ documents) as [[i doc]|] eqn:Hfind.
  - apply list_find_Some in Hfind as (Hi & Hn & Hfirst).
    exists i, doc. split_and!; try done.
  - apply list_find_None in Hfind. rewrite Forall_forall in Hfind.
    by destruct (Hfind doc0 Hin).
Qed.

Lemma update_manifest_new (documents : list document)
    (doc_id original_filename fp now : string) (s : stats) :
  (forall doc, doc ∈ documents -> d_name doc <> original_filename) ->
  update_manifest documents doc_id original_filename fp now s
  = (documents ++ [first_record doc_id original_filename fp now s],
     first_record doc_id original_filename fp now s).
Proof.
  intros Hnone. unfold update_manifest.
  destruct (list_find _ documents) as [[i doc]|] eqn:Hfind; [|done].
  apply list_find_Some in Hfind as (Hi & Hn & _).
  destruct (Hnone doc); [|done]. by eapply list_elem_of_lookup_2.
Qed.

(** C6: A completed ingestion of a file whose display name is already in the
    manifest rewrites the first record of that name in place (new upload
    timestamp and statistics, same id, name and path, every other record
    untouched) and leaves the manifest's length unchanged; for a name not in
    the manifest exactly one new record is appended. *)
Theorem ingestion_upserts_manifest_by_name (E : env) (st st' : state) (fp : string)
    (r : request) (original_filename : string) (x : extraction) (evs : list status) :
  index_file_streaming E st fp r original_filename x = (evs, st', Ok tt) ->
  let docs := default [] (documents_file st) in
  exists docs' processed,
    documents_file st' = Some docs'
    /\ snd (build_multimodal_elements_streaming E fp x) = Ok processed
    /\ ((exists doc, doc ∈ docs /\ d_name doc = original_filename) ->
        length docs' = length docs
        /\ exists i doc,
            docs !! i = Some doc
            /\ d_name doc = original_filename
            /\ docs' = <[i := {| d_id := d_id doc; d_name := d_name doc; d_path := d_path doc;
                                 d_uploadedAt := req_uploaded_at r;
                                 d_preview := stats_summary "Re-indexed with " (stats_of processed);
                                 d_stats := stats_of processed |}]> docs)
    /\ ((forall doc, doc ∈ docs -> d_name doc <> original_filename) ->
        docs' = docs ++ [{| d_id := req_doc_id r; d_name := original_filename; d_path := fp;
                            d_uploadedAt := req_uploaded_at r;
                            d_preview := stats_summary "Indexed with " (stats_of processed);
                            d_stats := stats_of processed |}]).
Proof.
  intros Hrun docs. subst docs.
  apply index_file_streaming_complete in Hrun
    as (vs & processed & _ & Hb & _ & _ & Hdocs & _).
  eexists _, processed. split; [exact Hdocs|]. split; [exact Hb|]. split.
  - intros Hex.
    destruct (update_manifest_existing _ (req_doc_id r) original_filename fp
                (req_uploaded_at r) (stats_of processed) Hex)
      as (i & doc & Hi & Hn & _ & ->).
    simpl. split; [apply length_insert|]. by exists i, doc.
  - intros Hnone. by rewrite update_manifest_new.
Qed.

Lemma get_document_by_id_None (docs : list document) (id : string) :
  id ∉ map d_id docs -> get_document_by_id docs id = None.
Proof.
  intros Hid. unfold get_document_by_id.
  destruct (list_find _ docs) as [[i doc]|] eqn:Hfind; [|done].
  apply list_find_Some in Hfind as (Hi & Hd & _).
  destruct Hid. apply list_elem_of_fmap. exists doc. split; [done|].
  by eapply list_elem_of_lookup_2.
Qed.

Lemma reindexed_ids (docs : list document) (i : nat) (doc : document) (now : string) (s : stats) :
  docs !! i = Some doc ->
  map d_id (<[i := reindexed_record doc now s]> docs) = map d_id docs.
Proof.
  intros Hi. change (map d_id) with (fmap (M:=list) d_id).
  rewrite list_fmap_insert. simpl. apply list_insert_id.
  by rewrite list_lookup_fmap, Hi.
Qed.

(** C9: When a file is ingested under a display name the manifest already
    holds, the conversation created by the ingestion is linked to the freshly
    generated upload id, while the manifest record of that name keeps its
    original id and path; the new conversation's document id therefore
    matches no manifest record. *)
Theorem reingestion_chat_links_unlisted_document (E : env) (st st' : state) (fp : string)
    (r : request) (original_filename : string) (x : extraction) (evs : list status) :
  index_file_streaming E st fp r original_filename x = (evs, st', Ok tt) ->
  (exists doc, doc ∈ default [] (documents_file st) /\ d_name doc = original_filename) ->
  req_doc_id r ∉ map d_id (default [] (documents_file st)) ->
  exists c docs' i doc doc',
    chat_history st' !! req_chat_id r = Some c
    /\ c_document_id c = req_doc_id r
    /\ documents_file st' = Some docs'
    /\ default [] (documents_file st) !! i = Some doc
    /\ d_name doc = original_filename
    /\ docs' !! i = Some doc'
    /\ d_id doc' = d_id doc
    /\ d_path doc' = d_path doc
    /\ length docs' = length (default [] (documents_file st))
    /\ get_document_by_id docs' (req_doc_id r) = None.
Proof.
  intros Hrun Hex Hfresh.
  apply index_file_streaming_complete in Hrun
    as (vs & processed & _ & _ & _ & _ & Hdocs & Hch & _).
  destruct (update_manifest_existing (default [] (documents_file st)) (req_doc_id r)
              original_filename fp (req_uploaded_at r) (stats_of processed) Hex)
    as (i & doc & Hi & Hn & _ & Hupd).
  rewrite Hupd in Hdocs. simpl in Hdocs.
  eexists (new_chat r original_filename), _, i, doc,
          (reindexed_record doc (req_uploaded_at r) (stats_of processed)).
  split_and!; try done.
  - rewrite Hch. apply lookup_insert_eq.
  - apply list_lookup_insert_eq. by eapply lookup_lt_Some.
  - apply length_insert.
  - apply get_document_by_id_None. by rewrite reindexed_ids.
Qed.

(** ** The answer stream *)

Lemma stream_chunks_events (contents : list string) (full_answer : string) :
  fst (stream_chunks contents full_answer) = map EvChunk (forwarded contents).
Proof.
  revert full_answer. unfold forwarded.
  induction contents as [|c rest IH]; intros full_answer; simpl; [done|].
  destruct (Str.nonempty c) eqn:Hc.
  - rewrite filter_cons_True by done.
    specialize (IH (full_answer +:+ c)).
    destruct (stream_chunks rest _) as [evs full]. simpl in *. by rewrite IH.
  - rewrite filter_cons_False by (by rewrite Hc). apply IH.
Qed.


Lemma error_response_visible (error_msg : string) :
  negb (Str.nonempty (error_response error_msg)) || Str.all_space (error_response error_msg)
  = false.
Proof.
  unfold error_response.
  destruct (mentions_index_error error_msg), (mentions_safety error_msg); reflexivity.
Qed.

(** A stream that raises: the forwarded chunks, then the one fallback. *)
Lemma stream_answer_error (contents : list string) (error_msg : string) :
  stream_answer (contents, Some error_msg)
  = (map EvChunk (forwarded contents) ++ [EvChunk (error_response error_msg)],
     error_response error_msg).
Proof.
  unfold stream_answer. simpl.
  pose proof (stream_chunks_events contents "") as Hev.
  destruct (stream_chunks contents "") as [evs full]. simpl in *.
  rewrite error_response_visible. by rewrite Hev.
Qed.

(** Every event the streaming step yields is a chunk. *)
Lemma stream_answer_chunks (llm_stream : list string * option string) :
  exists contents, fst (stream_answer llm_stream) = map EvChunk contents.
Proof.
  destruct llm_stream as [contents [error_msg|]].
  - rewrite stream_answer_error. simpl.
    exists (forwarded contents ++ [error_response error_msg]). by rewrite map_app.
  - unfold stream_answer. simpl.
    pose proof (stream_chunks_events contents "") as Hev.
    destruct (stream_chunks contents "") as [evs full]. simpl in *.
    destruct (_ || _); simpl.
    + exists (forwarded contents ++ [APOLOGY]). by rewrite map_app, Hev.
    + by exists (forwarded contents).
Qed.

Lemma answer_generator_run (E : env) (st : state) (chat_id query : string) (k : Z)
    (vs summary_docs : list summary_doc) :
  fst (get_vectorstore E st) = Ok vs ->
  similarity_search E vs query k = Ok summary_docs ->
  let messages := retrieved_messages (docstore st) query summary_docs in
  run_events (answer_generator E st chat_id query k)
  = [EvContext summary_docs] ++ fst (stream_answer (astream (llm_user E) messages)) ++ [EvEnd]
  /\ run_llm_calls (answer_generator E st chat_id query k) = [messages]
  /\ run_outcome (answer_generator E st chat_id query k) = Ok tt.
Proof.
  intros Hvs Hsearch. unfold answer_generator.
  pose proof (get_vectorstore_frame E st) as (Hds & _).
  destruct (get_vectorstore E st) as [[vs0|m] st0]; simpl in *; [|done].
  injection Hvs as ->. rewrite Hsearch, Hds.
  by destruct (stream_answer _).
Qed.

(** A generator that raises does so before its first event. *)
Lemma answer_generator_raises_silently (E : env) (st : state) (chat_id query : string)
    (k : Z) (m : string) :
  run_outcome (answer_generator E st chat_id query k) = Raise m ->
  run_events (answer_generator E st chat_id query k) = []
  /\ run_llm_calls (answer_generator E st chat_id query k) = [].
Proof.
  unfold answer_generator.
  destruct (get_vectorstore E st) as [[vs0|m0] st0]; [|done].
  destruct (similarity_search E vs0 query k); [|done].
  by destruct (stream_answer _).
Qed.

(** C5 (as amended): When the index load and the similarity search return,
    the events of a query stream are one [context] event carrying the search
    result, then zero or more [chunk] events, then one terminal [end] event,
    in that order, whatever the model's stream does, and the generator ends
    normally.  When the index load or the search raises, the generator ends
    with that exception before its first event: the stream carries no event,
    neither [context] nor [end], and the model is not called. *)
Theorem answer_stream_event_order (E : env) (st : state) (chat_id query : string) (k : Z) :
  let run := answer_generator E st chat_id query k in
  (forall vs summary_docs,
      fst (get_vectorstore E st) = Ok vs ->
      similarity_search E vs query k = Ok summary_docs ->
      run_outcome run = Ok tt
      /\ exists contents,
          run_events run = EvContext summary_docs :: map EvChunk contents ++ [EvEnd])
  /\ (forall m,
      fst (get_vectorstore E st) = Raise m ->
      run_outcome run = Raise m /\ run_events run = [] /\ run_llm_calls run = [])
  /\ (forall vs m,
      fst (get_vectorstore E st) = Ok vs ->
      similarity_search E vs query k = Raise m ->
      run_outcome run = Raise m /\ run_events run = [] /\ run_llm_calls run = []).
Proof.
  intros run. split_and!.
  - intros vs summary_docs Hvs Hsearch.
    destruct (answer_generator_run E st chat_id query k vs summary_docs Hvs Hsearch)
      as (Hev & _ & Hout).
    split; [exact Hout|].
    destruct (stream_answer_chunks
                (astream (llm_user E) (retrieved_messages (docstore st) query summary_docs)))
      as [contents Hc].
    exists contents. subst run. by rewrite Hev, Hc.
  - intros m Hvs. subst run. unfold answer_generator.
    destruct (get_vectorstore E st) as [[vs0|m0] st0]; simpl in Hvs; [done|].
    by injection Hvs as ->.
  - intros vs m Hvs Hsearch. subst run. unfold answer_generator.
    destruct (get_vectorstore E st) as [[vs0|m0] st0]; simpl in Hvs; [|done].
    injection Hvs as ->. by rewrite Hsearch.
Qed.


(** ** Retrieval without matches *)

Lemma retrieved_messages_no_match (ds : gmap string element) (query : string) :
  retrieved_messages ds query []
  = [SystemMessage SYSTEM_PROMPT_TEMPLATE;
     HumanMessage (Plain (human_text query "No context available."))].
Proof. reflexivity. Qed.

(** With the module-level [vectorstore] left unset, [query_rag] raises before
    it searches. *)
Lemma query_rag_unset_vectorstore (E : env) (ds : gmap string element) (query : string) (k : Z) :
  exists m, query_rag E None ds query k = (Raise m, []).
Proof. by eexists. Qed.

(** C3 (as amended): When the similarity search returns no summary match,
    [query_rag] returns the explicit nothing-found result without calling the
    generation model and without raising; the streaming [answer_generator]
    does not short-circuit: it emits a [context] event with no chunks, calls
    the model once with the context "No context available.", and ends
    normally with the [end] event. *)
Theorem empty_search_short_circuits_query_rag_only (E : env) (st : state)
    (chat_id query : string) (k : Z) (vs : list summary_doc) :
  similarity_search E vs query k = Ok [] ->
  query_rag E (Some vs) (docstore st) query k
  = (Ok {| answer := "No relevant documents found for your query.";
           chunks := []; element_types := None |}, [])
  /\ (fst (get_vectorstore E st) = Ok vs ->
      let run := answer_generator E st chat_id query k in
      run_outcome run = Ok tt
      /\ run_llm_calls run
         = [[SystemMessage SYSTEM_PROMPT_TEMPLATE;
             HumanMessage (Plain (human_text query "No context available."))]]
      /\ exists contents,
          run_events run = EvContext [] :: map EvChunk contents ++ [EvEnd]).
Proof.
  intros Hsearch. split.
  - unfold query_rag. by rewrite Hsearch.
  - intros Hvs run.
    destruct (answer_generator_run E st chat_id query k vs [] Hvs Hsearch)
      as (Hev & Hcalls & Hout).
    fold run in Hev, Hcalls, Hout.
    split; [done|]. split; [by rewrite Hcalls, retrieved_messages_no_match|].
    destruct (stream_answer_chunks
                (astream (llm_user E) (retrieved_messages (docstore st) query [])))
      as [contents Hc].
    exists contents. by rewrite Hev, Hc.
Qed.

(** ** Deleting a conversation leaves the stores alone *)

Lemma pop_document_split (document_id : string) (docs docs' : list document) (doc : document) :
  pop_document document_id docs = (Some doc, docs') ->
  exists before after,
    docs = before ++ doc :: after /\ docs' = before ++ after
    /\ d_id doc = document_id
    /\ Forall (fun other => d_id other <> document_id) before.
Proof.
  revert docs'. induction docs as [|d rest IH]; intros docs'; simpl; [done|].
  destruct (decide (d_id d = document_id)) as [Hd|Hd].
  - intros [= -> <-]. by exists [], rest.
  - destruct (pop_document document_id rest) as [found rest'] eqn:Hrest.
    intros [= -> <-].
    destruct (IH rest' eq_refl) as (before & after & -> & -> & Hid & Hbefore).
    exists (d :: before), after. split_and!; try done. by constructor.
Qed.

Lemma answer_generator_reads_stores_only (E : env) (st1 st2 : state)
    (chat_id query : string) (k : Z) :
  index_file st1 = index_file st2 ->
  docstore st1 = docstore st2 ->
  run_events (answer_generator E st1 chat_id query k)
  = run_events (answer_generator E st2 chat_id query k)
  /\ run_llm_calls (answer_generator E st1 chat_id query k)
     = run_llm_calls (answer_generator E st2 chat_id query k)
  /\ run_outcome (answer_generator E st1 chat_id query k)
     = run_outcome (answer_generator E st2 chat_id query k).
Proof.
  intros Hi Hd. unfold answer_generator, get_vectorstore. rewrite <- Hi.
  destruct (index_file st1) as [vs|].
  - destruct (similarity_search E vs query k); [|done].
    rewrite <- Hd. by destruct (stream_answer _).
  - destruct (embeds E _); [|done]. simpl.
    destruct (similarity_search E _ query k); [|done].
    rewrite <- Hd. by destruct (stream_answer _).
Qed.

(** C10: Deleting the last conversation that references a document removes
    the conversation, the document's manifest record and its backing file,
    and nothing else: the similarity index and the content store are the same
    before and after (as they are for every deletion), so every later query
    retrieves and streams exactly what it would have without the deletion. *)
Theorem deleting_last_chat_keeps_index_and_store (st : state) (chat_id : string) :
  let st' := snd (delete_chat_endpoint st chat_id) in
  index_file st' = index_file st
  /\ docstore st' = docstore st
  /\ (forall E chat query k,
        run_events (answer_generator E st' chat query k)
        = run_events (answer_generator E st chat query k)
        /\ run_llm_calls (answer_generator E st' chat query k)
           = run_llm_calls (answer_generator E st chat query k))
  /\ (forall c docs docs' doc,
        chat_history st !! chat_id = Some c ->
        Str.nonempty (c_document_id c) = true ->
        other_chats_with_doc (c_document_id c) (delete chat_id (chat_history st)) = false ->
        documents_file st = Some docs ->
        pop_document (c_document_id c) docs = (Some doc, docs') ->
        fst (delete_chat_endpoint st chat_id)
        = Ok {| del_message := "Chat and associated document deleted successfully";
                del_chat_id := chat_id; document_deleted := true |}
        /\ chat_history st' = delete chat_id (chat_history st)
        /\ documents_file st' = Some docs'
        /\ (exists before after, docs = before ++ doc :: after /\ docs' = before ++ after)
        /\ uploads st'
           = (if Str.nonempty (d_path doc) then uploads st ∖ {[d_path doc]} else uploads st)).
Proof.
  intros st'.
  destruct (delete_chat_endpoint_stores st chat_id) as [Hi Hd].
  fold st' in Hi, Hd.
  split; [exact Hi|]. split; [exact Hd|]. split.
  - intros E chat query k.
    destruct (answer_generator_reads_stores_only E st' st chat query k Hi Hd) as (? & ? & _).
    done.
  - intros c docs docs' doc Hc Hid Hother Hdocs Hpop.
    assert (delete_chat_endpoint st chat_id
            = (Ok {| del_message := "Chat and associated document deleted successfully";
                     del_chat_id := chat_id; document_deleted := true |},
               set_documents_file
                 (if Str.nonempty (d_path doc)
                  then set_uploads (set_chat_history st (delete chat_id (chat_history st)))
                                   (uploads st ∖ {[d_path doc]})
                  else set_chat_history st (delete chat_id (chat_history st)))
                 docs')) as Hrun.
    { unfold delete_chat_endpoint. rewrite Hc. simpl. rewrite Hid, Hother. simpl.
      by rewrite Hdocs, Hpop. }
    subst st'. rewrite Hrun. simpl.
    split_and!; try done.
    + by destruct (Str.nonempty (d_path doc)).
    + apply pop_document_split in Hpop as (before & after & ? & ? & _).
      by exists before, after.
    + by destruct (Str.nonempty (d_path doc)).
Qed.

(** ** The characters of a text *)

Lemma string_app_assoc (a b c : string) : (a +:+ b) +:+ c = a +:+ b +:+ c.
Proof.
  induction a as [|ch a IH]; [done|].
  change (String ch ((a +:+ b) +:+ c) = String ch (a +:+ b +:+ c)). by rewrite IH.
Qed.

Lemma string_app_nil_r (a : string) : a +:+ "" = a.
Proof.
  induction a as [|ch a IH]; [done|].
  change (String ch (a +:+ "") = String ch a). by rewrite IH.
Qed.

Lemma chars_cons (c : ascii) (s : string) :
  Str.chars (String c s)
  = if Str.continues s
    then match Str.chars s with
         | ch :: rest => String c ch :: rest
         | [] => [String c ""]
         end
    else String c "" :: Str.chars s.
Proof. simpl. by destruct (Str.chars s), (Str.continues s). Qed.

(** The first character of a text starts with the first byte of the text. *)
Lemma chars_head (c : ascii) (s : string) :
  exists rest chs, Str.chars (String c s) = String c rest :: chs.
Proof.
  rewrite chars_cons. destruct (Str.continues s); [|by eexists _, _].
  destruct (Str.chars s); by eexists _, _.
Qed.

Lemma chars_app (a b : string) :
  Str.continues b = false -> Str.chars (a +:+ b) = Str.chars a ++ Str.chars b.
Proof.
  intros Hb. induction a as [|c a IH]; [done|].
  change (String c a +:+ b) with (String c (a +:+ b)).
  rewrite !chars_cons, IH.
  destruct a as [|d a'].
  - change ("" +:+ b) with b. by rewrite Hb.
  - change (Str.continues (String d a' +:+ b)) with (Str.continues (String d a')).
    destruct (Str.continues (String d a')); [|done].
    destruct (chars_head d a') as (rest & chs & ->). done.
Qed.

Lemma chars_one_char (ch : string) : one_char ch = true -> Str.chars ch = [ch].
Proof.
  destruct ch as [|c rest]; [done|]. cbn [one_char]. revert c.
  induction rest as [|d rest IH]; intros c Hrest; [done|].
  cbn [all_continuation] in Hrest. apply andb_true_iff in Hrest as [Hd Hrest].
  rewrite chars_cons. change (Str.continues (String d rest)) with (Str.is_continuation d).
  by rewrite Hd, (IH d Hrest).
Qed.

(** Every character of a text is a byte and the continuation bytes after
    it, and every character but the first starts with a leading byte. *)
Lemma chars_one_chars (s : string) : Forall (fun ch => one_char ch = true) (Str.chars s).
Proof.
  induction s as [|c s IH]; [constructor|].
  rewrite chars_cons. destruct (Str.continues s) eqn:Hcont.
  - destruct s as [|d s']; [done|].
    destruct (chars_head d s') as (rest & chs & Hch). rewrite Hch in IH |- *.
    apply Forall_cons in IH as [Hone Hchs].
    constructor; [|done]. simpl in *. by rewrite Hcont.
  - by constructor.
Qed.

Lemma chars_tail_leading (s : string) :
  Forall (fun ch => Str.continues ch = false) (tail (Str.chars s)).
Proof.
  induction s as [|c s IH]; [constructor|].
  rewrite chars_cons. destruct (Str.continues s) eqn:Hcont.
  - destruct (Str.chars s); [constructor|exact IH].
  - simpl. destruct s as [|d s']; [constructor|].
    destruct (chars_head d s') as (rest & chs & Hch). rewrite Hch in IH |- *.
    by constructor.
Qed.

Lemma join_cons (ch : string) (chs : list string) :
  Str.join "" (ch :: chs) = ch +:+ Str.join "" chs.
Proof. destruct chs; simpl; [by rewrite string_app_nil_r|done]. Qed.

Lemma join_app (a b : list string) : Str.join "" (a ++ b) = Str.join "" a +:+ Str.join "" b.
Proof.
  induction a as [|ch a IH]; [done|].
  change ((ch :: a) ++ b) with (ch :: (a ++ b)).
  by rewrite !join_cons, IH, string_app_assoc.
Qed.

(** A text is its characters, joined. *)
Lemma join_chars (s : string) : Str.join "" (Str.chars s) = s.
Proof.
  induction s as [|c s IH]; [done|].
  rewrite chars_cons. destruct (Str.continues s).
  - destruct (Str.chars s) as [|ch rest]; [by rewrite <- IH|].
    rewrite join_cons in *. by rewrite <- IH.
  - by rewrite join_cons, IH.
Qed.

(** Characters that are joined are found again. *)
Lemma chars_join (chs : list string) :
  Forall (fun ch => one_char ch = true) chs ->
  Forall (fun ch => Str.continues ch = false) (tail chs) ->
  Str.chars (Str.join "" chs) = chs.
Proof.
  induction chs as [|ch chs IH]; [done|]. intros Hone Hlead.
  apply Forall_cons in Hone as [Hch Hone]. simpl in Hlead.
  rewrite join_cons, chars_app, (chars_one_char ch Hch).
  - rewrite IH; [done|done|]. destruct chs; [constructor|].
    by apply Forall_cons in Hlead as [_ ?].
  - destruct chs as [|ch2 chs2]; [done|].
    apply Forall_cons in Hlead as [Hlead _]. apply Forall_cons in Hone as [Hch2 _].
    rewrite join_cons. destruct ch2; [done|exact Hlead].
Qed.

(** [s[:n]] has the first [n] characters of [s], and [s] goes on from it. *)
Lemma chars_slice_to (n : nat) (s : string) :
  Str.chars (Str.slice_to n s) = take n (Str.chars s).
Proof.
  unfold Str.slice_to. apply chars_join.
  - apply Forall_take, chars_one_chars.
  - pose proof (chars_tail_leading s) as Hlead.
    destruct n as [|n]; [constructor|].
    destruct (Str.chars s) as [|ch chs]; [constructor|].
    simpl in *. by apply Forall_take.
Qed.

Lemma slice_to_prefix (n : nat) (s : string) :
  s = Str.slice_to n s +:+ Str.join "" (drop n (Str.chars s)).
Proof.
  unfold Str.slice_to. by rewrite <- join_app, take_drop, join_chars.
Qed.

(** ** Summarizer failures *)

Lemma index_elements_succeeds (E : env) (elems : list element) (n total : nat)
    (ds : gmap string element) (vs : list summary_doc) :
  (forall s, embeds E s = true) ->
  exists evs ds' vs', index_elements E elems n total ds vs = (evs, ds', Ok vs').
Proof.
  intros Hembed. revert n ds vs.
  induction elems as [|e rest IH]; intros n ds vs; simpl; [by eexists _, _, _|].
  rewrite Hembed.
  destruct (IH (S n) (<[doc_id e := e]> ds) (vs ++ [summary_document e]))
    as (evs & ds' & vs' & ->).
  by eexists _, _, _.
Qed.

Lemma zip_with_set_summary_summarized (elems : list element) (summaries : list string) :
  Forall (fun e => is_Some (summary e)) (zip_with set_summary elems summaries).
Proof.
  revert summaries. induction elems as [|e rest IH]; intros [|s summaries]; simpl; try done.
  constructor; [by eexists|apply IH].
Qed.

(** C7: A summarization call that raises makes the summarizer return a fixed
    fallback instead of raising: the marker "Image content could not be
    analyzed." for an image, and "Table content: " followed by the table's
    text cut after its first 500 characters for a table.  Whatever the model
    does, the batch ends with every element summarized, and the ingestion
    runs to [complete] when the embedding calls return. *)
Theorem summarization_failure_degrades_to_fallback (E : env) :
  (forall image_b64 m,
      llm_ainvoke (llm E) [HumanMessage (Parts [TextPart IMAGE_PROMPT; ImagePart image_b64])]
      = Raise m ->
      summarize_image_async (llm E) image_b64 = "Image content could not be analyzed.")
  /\ (forall table_html table_text m,
      llm_ainvoke (llm E) [HumanMessage (Plain (table_prompt table_html table_text))] = Raise m ->
      summarize_table_async (llm E) table_html table_text
      = "Table content: " +:+ Str.slice_to 500 table_text
      /\ Str.chars (Str.slice_to 500 table_text) = take 500 (Str.chars table_text)
      /\ exists rest, table_text = Str.slice_to 500 table_text +:+ rest)
  /\ (forall fp x,
      completion_order E ≡ₚ seq 0 (length (all_tasks E fp x)) ->
      (exists elems,
          snd (build_multimodal_elements_streaming E fp x) = Ok elems
          /\ length elems = length (to_process E fp x)
          /\ Forall (fun e => is_Some (summary e)) elems)
      /\ ((forall s, embeds E s = true) ->
          forall st r original_filename,
          exists evs st', index_file_streaming E st fp r original_filename x = (evs, st', Ok tt))).
Proof.
  split; [|split].
  - intros image_b64 m Hraise. unfold summarize_image_async. by rewrite Hraise.
  - intros table_html table_text m Hraise. unfold summarize_table_async. rewrite Hraise.
    split; [done|]. split; [apply chars_slice_to|].
    eexists. apply slice_to_prefix.
  - intros fp x Hperm.
    pose proof (build_elements_positional E fp x Hperm) as Hb.
    split.
    + eexists. split; [exact Hb|]. split; [|apply zip_with_set_summary_summarized].
      rewrite length_zip_with. unfold summaries_of.
      rewrite as_completed_length, all_tasks_length by done. lia.
    + intros Hembed st r original_filename. unfold index_file_streaming.
      assert (exists vs st0, get_vectorstore E st = (Ok vs, st0)) as (vs & st0 & ->).
      { unfold get_vectorstore. destruct (index_file st); [by eexists _, _|].
        rewrite Hembed. by eexists _, _. }
      destruct (build_multimodal_elements_streaming E fp x) as [evsb res].
      simpl in Hb. subst res.
      destruct (index_elements_succeeds E
                  (all_elements_in_order (zip_with set_summary (to_process E fp x) (summaries_of E fp x)))
                  0 (length (all_elements_in_order
                               (zip_with set_summary (to_process E fp x) (summaries_of E fp x))))
                  (docstore st0) vs Hembed) as (evsi & ds' & vs' & ->).
      destruct (update_manifest _ _ _ _ _ _) as [docs' rec].
      by eexists _, _.
Qed.

(** ** PDF images: what the size filter lets through *)

Lemma small_rgb_raster_discarded (im : imaging) (pix : pixmap) :
  pix_n pix < 4 ->
  pix_width pix < 100 \/ pix_height pix < 100 ->
  raster_image im (Ok pix) = None.
Proof.
  intros Hn Hsize. unfold raster_image.
  assert ((pix_n pix <? 4) = true) as -> by (apply Z.ltb_lt; lia).
  assert (((pix_width pix <? 100) || (pix_height pix <? 100)) = true) as ->; [|done].
  apply orb_true_iff. destruct Hsize; [left|right]; apply Z.ltb_lt; lia.
Qed.

Lemma small_drawing_discarded (im : imaging) (d : drawing) :
  (rect_width d < 100)%Q \/ (rect_height d < 100)%Q ->
  drawing_image im d = None.
Proof.
  intros Hsize. unfold drawing_image.
  assert ((Qlt_b (rect_width d) 100 || Qlt_b (rect_height d) 100) = true) as ->; [|done].
  apply orb_true_iff. unfold Qlt_b.
  destruct Hsize as [H|H]; [left|right]; apply negb_true_iff;
    destruct (Qle_bool _ _) eqn:Hle; try done;
    apply Qle_bool_iff in Hle; by apply Qle_not_lt in Hle.
Qed.

Lemma kept_drawing_is_large (im : imaging) (d : drawing) (uri : string) :
  drawing_image im d = Some uri ->
  (100 <= rect_width d)%Q /\ (100 <= rect_height d)%Q.
Proof.
  intros Hkept.
  split; apply Qnot_lt_le; intros Hlt;
    rewrite small_drawing_discarded in Hkept by auto; done.
Qed.

(** Every image leaving the extractor is a PNG data URI. *)
Lemma page_images_are_png_data_uris (im : imaging) (doc : list pdf_page)
    (page_no : Z) (uris : list string) (uri : string) :
  (page_no, uris) ∈ pdf_page_images im doc ->
  uri ∈ uris ->
  exists b64, uri = "data:image/png;base64," +:+ b64.
Proof.
  unfold pdf_page_images. intros Hpage Huri.
  apply list_elem_of_omap in Hpage as ([pno p] & _ & Hp).
  destruct (page_images im p) as [|u us] eqn:Himgs; [done|].
  injection Hp as <- <-. rewrite <- Himgs in Huri. unfold page_images in Huri.
  apply elem_of_app in Huri as [Hr|Hd]; apply list_elem_of_omap in Hr || apply list_elem_of_omap in Hd.
  - destruct Hr as (r & _ & Hr). unfold raster_image in Hr.
    destruct r as [pix|]; [|done].
    destruct (_ && _); [done|].
    destruct (if 4 <=? pix_n pix then _ else _) as [pix'|]; [|done].
    destruct (frombytes_RGB im _ _ _) as [img|]; [|done].
    injection Hr as <-. by eexists.
  - destruct Hd as (d & _ & Hd). unfold drawing_image in Hd.
    destruct (_ || _); [done|].
    destruct (get_pixmap d) as [pix|]; [|done].
    destruct (frombytes_RGB im _ _ _) as [img|]; [|done].
    injection Hd as <-. by eexists.
Qed.

(** C8: The raster size filter applies only to pixmaps with fewer than four
    components per pixel.  A 10 x 10 pixmap with four components (RGBA or
    CMYK) is below 100 px in both directions, yet it is converted and leaves
    the extractor as an image of page 1. *)
Theorem small_four_component_raster_is_kept :
  let icon := {| pix_n := 4; pix_width := 10; pix_height := 10;
                 pix_samples := repeat 255 400 |} in
  let page := {| get_images := [Ok icon]; get_drawings := [] |} in
  pix_width icon < 100
  /\ pix_height icon < 100
  /\ pdf_page_images Scenario.imaging_stub [page]
     = [(1, ["data:image/png;base64,iVBORw0KGgo="])]
  /\ raster_image Scenario.imaging_stub
       (Ok {| pix_n := 3; pix_width := 10; pix_height := 10; pix_samples := repeat 255 300 |})
     = None.
Proof. intros icon page. split; [done|]. split; [done|]. split; reflexivity. Qed.

(** ** Worked scenarios *)

(** A second ingestion on top of the first: both stores stay paired. *)
Lemma completed_ingestion_leaves_no_orphans_witness :
  let run := index_file_streaming Runs.E_again Runs.after_first "uploads/doc-2.docx"
               Scenario.second_upload "report.docx" Scenario.report in
  run.2 = Ok tt
  /\ index_ids run.1.2 = ["id-0"; "id-1"; "id-2"; "id-3"]
  /\ (forall id, id ∈ index_ids run.1.2 -> length (store_entries id (docstore run.1.2)) = 1%nat)
  /\ (forall e, e ∈ to_process Runs.E_again "uploads/doc-2.docx" Scenario.report ->
        length (store_entries (doc_id e) (docstore run.1.2)) = 1%nat
        /\ doc_id e ∈ index_ids run.1.2).
Proof.
  intros run. split; [reflexivity|]. split; [reflexivity|].
  apply (completed_ingestion_leaves_no_orphans Runs.E_again Runs.after_first run.1.2
           "uploads/doc-2.docx" Scenario.second_upload "report.docx" Scenario.report run.1.1).
  - apply reach_upload, reach_start.
  - reflexivity.
Defined.

(** The claim of C3 fails on the streaming path: with no match at all the
    model is still called, on the placeholder context. *)
Lemma empty_search_still_calls_model_in_stream :
  let run := answer_generator Runs.E_no_match Runs.after_first "chat-1" Runs.question 20 in
  (exists vs, fst (get_vectorstore Runs.E_no_match Runs.after_first) = Ok vs
              /\ similarity_search Runs.E_no_match vs Runs.question 20 = Ok [])
  /\ run_llm_calls run
     = [[SystemMessage SYSTEM_PROMPT_TEMPLATE;
         HumanMessage (Plain (human_text Runs.question "No context available."))]]
  /\ run_llm_calls run <> []
  /\ run_events run
     = [EvContext []; EvChunk "Revenue grew"; EvChunk " 12%."; EvEnd].
Proof.
  intros run. split; [by eexists|]. split; [reflexivity|]. split; [discriminate|reflexivity].
Qed.

Lemma empty_search_short_circuits_query_rag_only_witness :
  let vs := default [] (index_file Runs.after_first) in
  index_file Runs.after_first = Some vs
  /\ query_rag Runs.E_no_match (Some vs) (docstore Runs.after_first) Runs.question 20
     = (Ok {| answer := "No relevant documents found for your query.";
              chunks := []; element_types := None |}, [])
  /\ run_outcome (answer_generator Runs.E_no_match Runs.after_first "chat-1" Runs.question 20)
     = Ok tt.
Proof.
  intros vs. split; [reflexivity|].
  destruct (empty_search_short_circuits_query_rag_only Runs.E_no_match Runs.after_first
              "chat-1" Runs.question 20 vs eq_refl) as [Hrag Hstream].
  split; [exact Hrag|]. by destruct (Hstream eq_refl) as [Hout _].
Defined.



(** The claim of C5 fails for a stream whose search raises: the endpoint has
    answered with the stream, and the stream ends with the exception of the
    embedding call without a [context] or an [end] event. *)
Lemma rejected_key_stream_has_no_events :
  exists run,
    query_chat_endpoint Runs.E_key_rejected Runs.after_first (Some "not-a-key") "chat-1"
                        Runs.question 20 = Response run
    /\ run_outcome run = Raise "400 API key not valid. Please pass a valid API key."
    /\ run_events run = []
    /\ ~ (exists chunks contents,
            run_events run = EvContext chunks :: map EvChunk contents ++ [EvEnd]).
Proof.
  eexists. split; [reflexivity|]. split; [reflexivity|]. split; [reflexivity|].
  intros (chunks & contents & Hev). discriminate Hev.
Qed.

Lemma answer_stream_event_order_witness :
  (exists summary_docs contents,
      run_events (answer_generator Runs.E Runs.after_first "chat-1" Runs.question 20)
      = EvContext summary_docs :: map EvChunk contents ++ [EvEnd])
  /\ run_events (answer_generator Runs.E_key_rejected Runs.after_first "chat-1" Runs.question 20)
     = []
  /\ run_events (answer_generator Runs.E_key_rejected start_up "chat-1" Runs.question 20) = [].
Proof.
  split_and!.
  - destruct (answer_stream_event_order Runs.E Runs.after_first "chat-1" Runs.question 20)
      as (Hreturns & _ & _).
    destruct (Hreturns _ _ eq_refl eq_refl) as (_ & contents & Hev).
    by eexists _, contents.
  - destruct (answer_stream_event_order Runs.E_key_rejected Runs.after_first "chat-1"
                Runs.question 20) as (_ & _ & Hsearch).
    by destruct (Hsearch _ _ eq_refl eq_refl) as (_ & Hev & _).
  - destruct (answer_stream_event_order Runs.E_key_rejected start_up "chat-1" Runs.question 20)
      as (_ & Hload & _).
    by destruct (Hload _ eq_refl) as (_ & Hev & _).
Defined.

Lemma manifest_after_first :
  default [] (documents_file Runs.after_first)
  = [{| d_id := "doc-1"; d_name := "report.docx"; d_path := "uploads/doc-1.docx";
        d_uploadedAt := "2025-01-01T10:00:00";
        d_preview := "Indexed with 1 texts, 1 images, 0 tables.";
        d_stats := {| stats_images := 1; stats_tables := 0; stats_texts := 1 |} |}].
Proof. reflexivity. Defined.

(** First upload appends one record; the second upload of the same name
    rewrites it in place. *)
Lemma ingestion_upserts_manifest_by_name_witness :
  let first := index_file_streaming Runs.E start_up "uploads/doc-1.docx"
                 Scenario.first_upload "report.docx" Scenario.report in
  let second := index_file_streaming Runs.E_again Runs.after_first "uploads/doc-2.docx"
                  Scenario.second_upload "report.docx" Scenario.report in
  (exists docs', documents_file first.1.2 = Some docs' /\ length docs' = 1%nat)
  /\ (exists docs', documents_file second.1.2 = Some docs' /\ length docs' = 1%nat)
  /\ documents_file second.1.2
     = Some [{| d_id := "doc-1"; d_name := "report.docx"; d_path := "uploads/doc-1.docx";
                d_uploadedAt := "2025-01-02T09:00:00";
                d_preview := "Re-indexed with 1 texts, 1 images, 0 tables.";
                d_stats := {| stats_images := 1; stats_tables := 0; stats_texts := 1 |} |}].
Proof.
  intros first second. split; [|split; [|reflexivity]].
  - destruct (ingestion_upserts_manifest_by_name Runs.E start_up first.1.2
                "uploads/doc-1.docx" Scenario.first_upload "report.docx" Scenario.report
                first.1.1 eq_refl) as (docs' & processed & Hdocs & _ & _ & Hnew).
    exists docs'. split; [exact Hdocs|].
    rewrite Hnew; [reflexivity|]. intros doc Hin. by apply elem_of_nil in Hin.
  - destruct (ingestion_upserts_manifest_by_name Runs.E_again Runs.after_first second.1.2
                "uploads/doc-2.docx" Scenario.second_upload "report.docx" Scenario.report
                second.1.1 eq_refl) as (docs' & processed & Hdocs & _ & Hupd & _).
    exists docs'. split; [exact Hdocs|].
    destruct Hupd as [Hlen _].
    + rewrite manifest_after_first. eexists. split; [apply list_elem_of_here|reflexivity].
    + rewrite Hlen, manifest_after_first. reflexivity.
Defined.

Lemma reingestion_chat_links_unlisted_document_witness :
  let second := index_file_streaming Runs.E_again Runs.after_first "uploads/doc-2.docx"
                  Scenario.second_upload "report.docx" Scenario.report in
  exists c docs',
    chat_history second.1.2 !! "chat-2" = Some c
    /\ c_document_id c = "doc-2"
    /\ documents_file second.1.2 = Some docs'
    /\ map d_id docs' = ["doc-1"]
    /\ get_document_by_id docs' "doc-2" = None.
Proof.
  intros second.
  destruct (reingestion_chat_links_unlisted_document Runs.E_again Runs.after_first second.1.2
              "uploads/doc-2.docx" Scenario.second_upload "report.docx" Scenario.report
              second.1.1 eq_refl)
    as (c & docs' & i & doc & doc' & Hc & Hlink & Hdocs & _ & _ & _ & _ & _ & _ & Hnone).
  - rewrite manifest_after_first. eexists. split; [apply list_elem_of_here|reflexivity].
  - rewrite manifest_after_first. simpl. intros Hin.
    apply list_elem_of_singleton in Hin. discriminate.
  - exists c, docs'. split_and!; try done.
    assert (documents_file second.1.2
            = Some [{| d_id := "doc-1"; d_name := "report.docx"; d_path := "uploads/doc-1.docx";
                       d_uploadedAt := "2025-01-02T09:00:00";
                       d_preview := "Re-indexed with 1 texts, 1 images, 0 tables.";
                       d_stats := {| stats_images := 1; stats_tables := 0; stats_texts := 1 |} |}])
      as Hval by reflexivity.
    rewrite Hval in Hdocs. by injection Hdocs as <-.
Defined.

Lemma summarization_failure_degrades_to_fallback_witness :
  summarize_image_async (llm Runs.E) "data:image/png;base64,AAA"
  = "Image content could not be analyzed."
  /\ summarize_table_async (llm Runs.E) "<table><tr><td>Q3 12%</td></tr></table>" "Q3 12%"
     = "Table content: Q3 12%"
  /\ summarize_table_async (llm Runs.E) "<table></table>" (Scenario.arrows 600)
     = "Table content: " +:+ Scenario.arrows 500
  /\ (exists elems,
        snd (build_multimodal_elements_streaming Runs.E "report.docx" Scenario.report) = Ok elems
        /\ length elems = 2%nat)
  /\ (exists evs st',
        index_file_streaming Runs.E start_up "uploads/doc-1.docx" Scenario.first_upload
                             "report.docx" Scenario.report = (evs, st', Ok tt)).
Proof.
  destruct (summarization_failure_degrades_to_fallback Runs.E) as (Himg & Htab & Hbatch).
  split; [by eapply Himg|].
  split; [by destruct (Htab "<table><tr><td>Q3 12%</td></tr></table>" "Q3 12%" _ eq_refl)
            as (-> & _)|].
  split; [destruct (Htab "<table></table>" (Scenario.arrows 600) _ eq_refl) as (-> & _);
          vm_compute; reflexivity|].
  split.
  - destruct (Hbatch "report.docx" Scenario.report) as [(elems & Hb & Hlen & _) _];
      [reflexivity|].
    exists elems. split; [exact Hb|]. rewrite Hlen. reflexivity.
  - destruct (Hbatch "uploads/doc-1.docx" Scenario.report) as [_ Hindex]; [reflexivity|].
    apply Hindex. reflexivity.
Defined.

Lemma deleting_last_chat_keeps_index_and_store_witness :
  let st' := snd (delete_chat_endpoint Runs.after_first "chat-1") in
  documents_file st' = Some []
  /\ chat_history st' = ∅
  /\ uploads st' = uploads Runs.after_first ∖ {["uploads/doc-1.docx"]}
  /\ index_file st' = index_file Runs.after_first
  /\ docstore st' = docstore Runs.after_first
  /\ run_events (answer_generator Runs.E st' "chat-9" Runs.question 20)
     = run_events (answer_generator Runs.E Runs.after_first "chat-9" Runs.question 20).
Proof.
  intros st'.
  destruct (deleting_last_chat_keeps_index_and_store Runs.after_first "chat-1")
    as (Hi & Hd & Hq & Hlast).
  fold st' in Hi, Hd, Hq, Hlast.
  destruct (Hlast
              {| c_id := "chat-1"; c_document_id := "doc-1";
                 c_created_at := "2025-01-01T10:00:01"; c_title := "report.docx";
                 c_messages := [] |}
              (default [] (documents_file Runs.after_first)) []
              {| d_id := "doc-1"; d_name := "report.docx"; d_path := "uploads/doc-1.docx";
                 d_uploadedAt := "2025-01-01T10:00:00";
                 d_preview := "Indexed with 1 texts, 1 images, 0 tables.";
                 d_stats := {| stats_images := 1; stats_tables := 0; stats_texts := 1 |} |})
    as (_ & Hch & Hdocs & _ & Hup); try reflexivity.
  split_and!; [exact Hdocs|by rewrite Hch|exact Hup|exact Hi|exact Hd|apply Hq].
Defined.

(** * Further properties of the code *)

(** ** Grouping text by page *)

Lemma page_entry_add_text_eq (p : option Z) (t : string) (acc : list (option Z * list string)) :
  page_entry p (add_text p t acc) = Some (default [] (page_entry p acc) ++ [t]).
Proof.
  induction acc as [|[q ts] rest IH]; cbn [page_entry add_text].
  - by rewrite decide_True.
  - destruct (decide (q = p)) as [->|Hne]; cbn [page_entry].
    + by rewrite decide_True.
    + by rewrite decide_False.
Qed.

Lemma page_entry_add_text_ne (p q : option Z) (t : string) (acc : list (option Z * list string)) :
  q <> p -> page_entry q (add_text p t acc) = page_entry q acc.
Proof.
  intros Hne. induction acc as [|[r ts] rest IH]; cbn [page_entry add_text].
  - by rewrite decide_False.
  - destruct (decide (r = p)) as [->|Hrp]; cbn [page_entry].
    + by rewrite !decide_False.
    + destruct (decide (r = q)); [done|exact IH].
Qed.

Lemma add_text_keys (p : option Z) (t : string) (acc : list (option Z * list string)) :
  (add_text p t acc).*1 = if decide (p ∈ acc.*1) then acc.*1 else acc.*1 ++ [p].
Proof.
  induction acc as [|[q ts] rest IH]; cbn [add_text].
  - rewrite decide_False; [done|]. by intros ?%elem_of_nil.
  - destruct (decide (q = p)) as [->|Hne]; rewrite !fmap_cons; cbn [fst].
    + rewrite decide_True; [done|]. left.
    + rewrite IH. destruct (decide (p ∈ rest.*1)) as [Hin|Hnin].
      * rewrite decide_True; [done|]. by right.
      * rewrite decide_False; [done|].
        intros [->|Hin]%elem_of_cons; done.
Qed.

Lemma add_text_NoDup (p : option Z) (t : string) (acc : list (option Z * list string)) :
  NoDup acc.*1 -> NoDup (add_text p t acc).*1.
Proof.
  intros Hnd. rewrite add_text_keys. destruct (decide (p ∈ acc.*1)) as [Hin|Hnin]; [done|].
  apply NoDup_app. split_and!; [done| |apply NoDup_singleton].
  intros q Hq ->%list_elem_of_singleton. done.
Qed.

Lemma page_entry_elem_of (p : option Z) (ts : list string) (acc : list (option Z * list string)) :
  NoDup acc.*1 -> (p, ts) ∈ acc <-> page_entry p acc = Some ts.
Proof.
  induction acc as [|[q us] rest IH]; cbn [page_entry]; intros Hnd.
  - split; [by intros ?%elem_of_nil|done].
  - rewrite fmap_cons in Hnd. apply NoDup_cons in Hnd as [Hq Hnd]. rewrite elem_of_cons.
    destruct (decide (q = p)) as [->|Hne].
    + split.
      * intros [[= ->]|Hin]; [done|].
        destruct Hq. apply list_elem_of_fmap. by exists (p, ts).
      * intros [= ->]. by left.
    + rewrite <- IH by done. split; [|by right].
      intros [[= -> ->]|Hin]; done.
Qed.

Lemma text_by_page_snoc (raws : list (string * option Z)) (t : string) (p : option Z) :
  text_by_page (raws ++ [(t, p)])
  = if Str.nonempty t then add_text p t (text_by_page raws) else text_by_page raws.
Proof. unfold text_by_page. by rewrite foldl_snoc. Qed.

Lemma texts_on_page_snoc (raws : list (string * option Z)) (t : string) (p q : option Z) :
  texts_on_page (raws ++ [(t, p)]) q
  = texts_on_page raws q ++ (if decide (p = q /\ Str.nonempty t = true) then [t] else []).
Proof.
  unfold texts_on_page. rewrite filter_app, fmap_app. f_equal.
  rewrite filter_cons, filter_nil. simpl.
  destruct (decide (p = q /\ Str.nonempty t = true)); done.
Qed.

Lemma text_by_page_entries (raws : list (string * option Z)) :
  NoDup (text_by_page raws).*1
  /\ forall q, page_entry q (text_by_page raws)
               = match texts_on_page raws q with [] => None | ts => Some ts end.
Proof.
  induction raws as [|[t p] raws [IHnd IH]] using rev_ind.
  - split; [apply NoDup_nil_2|done].
  - rewrite text_by_page_snoc. split.
    + destruct (Str.nonempty t); [by apply add_text_NoDup|done].
    + intros q. rewrite texts_on_page_snoc.
      destruct (Str.nonempty t) eqn:Ht.
      * destruct (decide (p = q)) as [->|Hne].
        -- rewrite page_entry_add_text_eq, IH, decide_True by done.
           by destruct (texts_on_page raws q).
        -- rewrite page_entry_add_text_ne, IH by done.
           rewrite decide_False by (by intros []). by rewrite app_nil_r.
      * rewrite IH, decide_False by (by intros []). by rewrite app_nil_r.
Qed.

(** X1: Grouping the text elements by page gives one entry per page number
    (no page appears twice), and the entry of a page holds exactly the
    non-empty texts of that page in document order; a page with no non-empty
    text has no entry. *)
Theorem text_by_page_groups_by_page (raws : list (string * option Z)) :
  NoDup (text_by_page raws).*1
  /\ forall page_num texts,
      (page_num, texts) ∈ text_by_page raws
      <-> texts = texts_on_page raws page_num /\ texts <> [].
Proof.
  destruct (text_by_page_entries raws) as [Hnd Hentry].
  split; [done|]. intros page_num texts.
  rewrite (page_entry_elem_of _ _ _ Hnd), Hentry.
  destruct (texts_on_page raws page_num) as [|t ts]; split.
  - done.
  - by intros [-> ?].
  - by intros [= <-].
  - by intros [-> _].
Qed.

(** ** Element ids and the content store round trip *)

Lemma with_ids_doc_ids (E : env) (start : nat) (fs : list (string -> element)) :
  Forall (fun f : string -> element => forall id, doc_id (f id) = id) fs ->
  map doc_id (with_ids E start fs) = map (uuid4 E) (seq start (length fs)).
Proof.
  intros Hfs. apply list_eq. intros i. unfold with_ids.
  change (map doc_id) with (fmap (M:=list) doc_id).
  change (map (uuid4 E)) with (fmap (M:=list) (uuid4 E)).
  rewrite !list_lookup_fmap, list_lookup_imap.
  destruct (fs !! i) as [f|] eqn:Hf; simpl.
  - rewrite lookup_seq_lt by (by eapply lookup_lt_Some). simpl.
    rewrite Forall_forall in Hfs. rewrite Hfs; [done|]. by eapply list_elem_of_lookup_2.
  - rewrite lookup_seq_ge; [done|]. by apply lookup_ge_None.
Qed.

Lemma with_ids_length (E : env) (start : nat) (fs : list (string -> element)) :
  length (with_ids E start fs) = length fs.
Proof. apply length_imap. Qed.

Lemma pdf_image_elements_stamp (fp : string) (imgs : list (Z * list string)) :
  Forall (fun f : string -> element => forall id, doc_id (f id) = id) (pdf_image_elements fp imgs).
Proof.
  apply Forall_forall. intros f Hf. apply list_elem_of_In, in_flat_map in Hf as ([pno uris] & _ & Hf).
  apply list_elem_of_In, elem_of_lookup_imap in Hf as (i & u & -> & _). done.
Qed.

Lemma raw_image_elements_stamp (fp : string) (raws : list raw_image) :
  Forall (fun f : string -> element => forall id, doc_id (f id) = id) (raw_image_elements fp raws).
Proof.
  apply Forall_forall. intros f Hf. apply list_elem_of_In, in_map_iff in Hf as (r & <- & _). done.
Qed.

Lemma table_elements_stamp (fp : string) (raws : list raw_table) :
  Forall (fun f : string -> element => forall id, doc_id (f id) = id) (map (table_element fp) raws).
Proof.
  apply Forall_forall. intros f Hf. apply list_elem_of_In, in_map_iff in Hf as (r & <- & _). done.
Qed.

Lemma text_chunk_elements_stamp (E : env) (fp : string) (by_page : list (option Z * list string)) :
  Forall (fun f : string -> element => forall id, doc_id (f id) = id)
         (text_chunk_elements E fp by_page).
Proof.
  apply Forall_forall. intros f Hf. apply list_elem_of_In, in_flat_map in Hf as ([p ts] & _ & Hf).
  apply list_elem_of_In, elem_of_lookup_imap in Hf as (i & c & -> & _). done.
Qed.

Lemma to_process_doc_ids (E : env) (fp : string) (x : extraction) :
  map doc_id (to_process E fp x)
  = map (uuid4 E) (seq 0 (length (to_process E fp x))).
Proof.
  unfold to_process. rewrite !length_app, !seq_app, !map_app. simpl.
  unfold texts_to_process, tables_to_process.
  set (imgs := images_to_process E fp x).
  assert (map doc_id imgs = map (uuid4 E) (seq 0 (length imgs))) as Himgs.
  { unfold imgs, images_to_process. rewrite with_ids_length.
    apply with_ids_doc_ids. destruct (endswith _ _);
      [apply pdf_image_elements_stamp|apply raw_image_elements_stamp]. }
  rewrite Himgs. f_equal.
  rewrite !with_ids_doc_ids, !with_ids_length
    by (apply table_elements_stamp || apply text_chunk_elements_stamp).
  done.
Qed.

Lemma to_process_ids_NoDup (E : env) (fp : string) (x : extraction) :
  (forall i j, uuid4 E i = uuid4 E j -> i = j) ->
  NoDup (map doc_id (to_process E fp x)).
Proof.
  intros Hinj. rewrite to_process_doc_ids.
  change (map (uuid4 E)) with (fmap (M:=list) (uuid4 E)).
  apply NoDup_fmap_2_strong; [|apply NoDup_seq].
  intros i j _ _. apply Hinj.
Qed.

(** X2: The elements of one file receive the uuids in the order they are
    built (images, then tables, then text chunks); when uuid4 never repeats a
    value, no two elements of the file share an id. *)
Theorem element_ids_follow_uuid_sequence (E : env) (fp : string) (x : extraction) :
  map doc_id (to_process E fp x) = map (uuid4 E) (seq 0 (length (to_process E fp x)))
  /\ ((forall i j, uuid4 E i = uuid4 E j -> i = j) ->
      NoDup (map doc_id (to_process E fp x))).
Proof.
  split; [apply to_process_doc_ids|apply to_process_ids_NoDup].
Qed.

Lemma scenario_uuid4_inj (first_id : nat) (order : list nat) (g : option chat_model)
    (u : chat_model) (search : list summary_doc -> string -> Z -> result (list summary_doc))
    (i j : nat) :
  uuid4 (Scenario.env_with first_id order g u search) i
  = uuid4 (Scenario.env_with first_id order g u search) j -> i = j.
Proof.
  simpl. intros [= H]. apply pretty_nat_inj in H. lia.
Defined.

Lemma element_ids_follow_uuid_sequence_witness :
  map doc_id (to_process Runs.E "report.docx" Scenario.report) = ["id-0"; "id-1"]
  /\ NoDup (map doc_id (to_process Runs.E "report.docx" Scenario.report)).
Proof.
  destruct (element_ids_follow_uuid_sequence Runs.E "report.docx" Scenario.report)
    as [Hids Hnd].
  split; [rewrite Hids; reflexivity|].
  apply Hnd. apply scenario_uuid4_inj.
Defined.

Lemma all_elements_in_order_perm (elems : list element) :
  all_elements_in_order elems ≡ₚ elems.
Proof.
  unfold all_elements_in_order. induction elems as [|e rest IH]; [done|].
  assert (forall k, is_kind k e = true <-> type e = k) as Hkind.
  { intros k. unfold is_kind. destruct k, (type e); split; congruence. }
  destruct (type e) eqn:Hk.
  - rewrite (filter_cons_True (fun e0 => is_kind image e0 = true)) by (by apply Hkind).
    rewrite (filter_cons_False (fun e0 => is_kind table e0 = true))
      by (rewrite Hkind; congruence).
    rewrite (filter_cons_False (fun e0 => is_kind text e0 = true))
      by (rewrite Hkind; congruence).
    simpl. by rewrite IH.
  - rewrite (filter_cons_False (fun e0 => is_kind image e0 = true))
      by (rewrite Hkind; congruence).
    rewrite (filter_cons_True (fun e0 => is_kind table e0 = true)) by (by apply Hkind).
    rewrite (filter_cons_False (fun e0 => is_kind text e0 = true))
      by (rewrite Hkind; congruence).
    simpl. rewrite <- Permutation_middle. by rewrite IH.
  - rewrite (filter_cons_False (fun e0 => is_kind image e0 = true))
      by (rewrite Hkind; congruence).
    rewrite (filter_cons_False (fun e0 => is_kind table e0 = true))
      by (rewrite Hkind; congruence).
    rewrite (filter_cons_True (fun e0 => is_kind text e0 = true)) by (by apply Hkind).
    rewrite app_assoc, <- Permutation_middle, <- app_assoc. by rewrite IH.
Qed.

Lemma store_all_lookup_other (elems : list element) (ds : gmap string element) (id : string) :
  id ∉ map doc_id elems -> store_all ds elems !! id = ds !! id.
Proof.
  revert ds. induction elems as [|e rest IH]; intros ds Hid; simpl; [done|].
  simpl in Hid. apply not_elem_of_cons in Hid as [Hne Hid].
  rewrite IH by done. by rewrite lookup_insert_ne.
Qed.

Lemma store_all_lookup_stored (elems : list element) (ds : gmap string element) (e : element) :
  NoDup (map doc_id elems) -> e ∈ elems -> store_all ds elems !! doc_id e = Some e.
Proof.
  revert ds. induction elems as [|a rest IH]; intros ds Hnd Hin; [by apply elem_of_nil in Hin|].
  simpl in Hnd. apply NoDup_cons in Hnd as [Ha Hnd]. simpl.
  apply elem_of_cons in Hin as [->|Hin].
  - rewrite store_all_lookup_other by done. apply lookup_insert_eq.
  - by apply IH.
Qed.

Lemma assign_summaries_shape (summaries : list string) (elems out : list element) (idx idx' : nat) :
  assign_summaries summaries idx elems = Ok (out, idx') ->
  Forall2 (fun e0 e => exists s, e = set_summary e0 s) elems out.
Proof.
  revert idx out. induction elems as [|e rest IH]; intros idx out; simpl.
  - intros [= <- _]. constructor.
  - destruct (summaries !! idx) as [s|]; [|done].
    destruct (assign_summaries summaries (S idx) rest) as [[d i]|m] eqn:Hrest; [|done].
    intros [= <- <-]. constructor; [by exists s|by eapply IH].
Qed.

Lemma build_elements_shape (E : env) (fp : string) (x : extraction) (processed : list element) :
  snd (build_multimodal_elements_streaming E fp x) = Ok processed ->
  Forall2 (fun e0 e => exists s, e = set_summary e0 s) (to_process E fp x) processed.
Proof.
  unfold build_multimodal_elements_streaming, to_process.
  destruct (assign_summaries _ 0 _) as [[imgs i1]|m] eqn:H1; [|done].
  destruct (assign_summaries _ i1 _) as [[tabs i2]|m] eqn:H2; [|done].
  destruct (assign_summaries _ i2 _) as [[txts i3]|m] eqn:H3; [|done].
  simpl. intros [= <-].
  repeat apply Forall2_app; by eapply assign_summaries_shape.
Qed.

(** X3: After a completed ingestion whose uuids are pairwise distinct, every
    element of the file can be fetched back from the content store under its
    id: the stored element is the one that was built (same type, original,
    source and page) with a summary attached, it is what the retriever
    resolves for that id, and the index holds the entry made from it. *)
Theorem ingested_elements_resolve_by_id (E : env) (st st' : state) (fp : string)
    (r : request) (original_filename : string) (x : extraction) (evs : list status) :
  index_file_streaming E st fp r original_filename x = (evs, st', Ok tt) ->
  (forall i j, uuid4 E i = uuid4 E j -> i = j) ->
  forall e0, e0 ∈ to_process E fp x ->
    exists s,
      docstore st' !! doc_id e0 = Some (set_summary e0 s)
      /\ resolve_originals (docstore st') [doc_id e0] = [set_summary e0 s]
      /\ summary_document (set_summary e0 s) ∈ default [] (index_file st').
Proof.
  intros Hrun Hinj e0 He0.
  apply index_file_streaming_complete in Hrun
    as (vs & processed & _ & Hb & Hidx & Hds & _).
  pose proof (build_elements_shape E fp x processed Hb) as Hshape.
  apply list_elem_of_lookup in He0 as [i Hi].
  destruct (Forall2_lookup_l _ _ _ _ _ Hshape Hi) as (e & He & s & ->).
  assert (set_summary e0 s ∈ all_elements_in_order processed) as Hin.
  { apply elem_of_all_elements_in_order. by eapply list_elem_of_lookup_2. }
  assert (NoDup (map doc_id (all_elements_in_order processed))) as Hnd.
  { change (map doc_id) with (fmap (M:=list) doc_id).
    rewrite all_elements_in_order_perm.
    change (fmap (M:=list) doc_id) with (map doc_id).
    rewrite (build_elements_ids E fp x processed Hb).
    by apply to_process_ids_NoDup. }
  assert (docstore st' !! doc_id e0 = Some (set_summary e0 s)) as Hget.
  { rewrite Hds. apply (store_all_lookup_stored _ _ (set_summary e0 s) Hnd Hin). }
  exists s. split; [done|]. split.
  - unfold resolve_originals. simpl. by rewrite Hget.
  - rewrite Hidx. simpl. apply elem_of_app. right.
    apply list_elem_of_fmap. by exists (set_summary e0 s).
Qed.

Lemma ingested_elements_resolve_by_id_witness :
  let run := index_file_streaming Runs.E start_up "uploads/doc-1.docx"
               Scenario.first_upload "report.docx" Scenario.report in
  let e0 := mk_element "id-1" text "Revenue grew 12% in Q3." "uploads/doc-1.docx"
                       (Some (Some 1)) None (Some 0) None None None in
  exists s, docstore run.1.2 !! "id-1" = Some (set_summary e0 s)
            /\ resolve_originals (docstore run.1.2) ["id-1"] = [set_summary e0 s].
Proof.
  intros run e0.
  destruct (ingested_elements_resolve_by_id Runs.E start_up run.1.2 "uploads/doc-1.docx"
              Scenario.first_upload "report.docx" Scenario.report run.1.1 eq_refl
              (scenario_uuid4_inj _ _ _ _ _) e0) as (s & Hget & Hres & _).
  - change (e0 ∈ [mk_element "id-0" image "data:image/png;base64,AAA" "uploads/doc-1.docx"
                             (Some (Some 2)) None None None None None; e0]).
    right. left.
  - exists s. split; [exact Hget|exact Hres].
Defined.

(** ** Text chunks and their summaries *)

Lemma texts_to_process_shape (E : env) (fp : string) (x : extraction) (e : element) :
  e ∈ texts_to_process E fp x ->
  exists page_num i,
    type e = text /\ page e = Some page_num /\ chunk_index e = Some (Z.of_nat i)
    /\ source e = fp /\ summary e = None
    /\ exists texts, (page_num, texts) ∈ text_by_page (text_elements_raw x)
                     /\ split_text E (Str.join Str.nl texts) !! i = Some (original e).
Proof.
  unfold texts_to_process, with_ids. intros He.
  apply elem_of_lookup_imap in He as (j & f & -> & Hf).
  apply list_elem_of_lookup_2, list_elem_of_In, in_flat_map in Hf as ([p ts] & Hp & Hf).
  apply list_elem_of_In, elem_of_lookup_imap in Hf as (i & c & -> & Hc).
  exists p, i. simpl. split_and!; try done.
  exists ts. split; [by apply list_elem_of_In|done].
Qed.

(** X4: The summary task of a text chunk returns the chunk itself, except
    for chunk 0 of page 1, which gets the fixed context prefix in front; in
    both cases the chunk's own text is kept verbatim at the end. *)
Theorem text_summary_is_chunk_or_prefixed_chunk (E : env) (fp : string) (x : extraction)
    (e : element) :
  e ∈ texts_to_process E fp x ->
  text_task e
  = if decide (page e = Some (Some 1) /\ chunk_index e = Some 0)
    then "This document/research paper discusses: " +:+ original e
    else original e.
Proof.
  intros He.
  destruct (texts_to_process_shape E fp x e He) as (p & i & _ & Hp & Hi & _).
  unfold text_task, summarize_text_async. rewrite Hp, Hi.
  destruct (decide (Some p = Some (Some 1) /\ Some (Z.of_nat i) = Some 0)) as [[Hp1 Hi0]|Hn].
  - injection Hp1 as ->. injection Hi0 as ->. reflexivity.
  - cbn [mjoin option_join default].
    destruct p as [[|[]|]|]; try reflexivity.
    cbn. destruct (Z.eqb_spec (Z.of_nat i) 0) as [Hz|Hz]; [|reflexivity].
    destruct Hn. by rewrite Hz.
Qed.

Lemma text_summary_is_chunk_or_prefixed_chunk_witness :
  text_task Scenario.sentence
  = "This document/research paper discusses: Revenue grew 12% in Q3.".
Proof.
  rewrite (text_summary_is_chunk_or_prefixed_chunk Runs.E "report.docx" Scenario.report
             Scenario.sentence).
  - reflexivity.
  - change (Scenario.sentence ∈ [Scenario.sentence]). left.
Defined.

(** ** Pages of the PDF image dict *)

Lemma pdf_page_images_elem_of (im : imaging) (doc : list pdf_page) (page_no : Z)
    (uris : list string) :
  (page_no, uris) ∈ pdf_page_images im doc
  <-> exists pno p, doc !! pno = Some p /\ page_no = Z.of_nat pno + 1
                    /\ uris = page_images im p /\ uris <> [].
Proof.
  unfold pdf_page_images. rewrite list_elem_of_omap. split.
  - intros ([pno p] & Hin & Hsome).
    apply elem_of_lookup_imap in Hin as (i & q & [= -> ->] & Hq).
    destruct (page_images im q) as [|u us] eqn:Himgs; [done|].
    injection Hsome as <- <-. exists i, q. by rewrite Himgs.
  - intros (pno & p & Hp & -> & -> & Hne).
    exists (pno, p). split; [by apply (elem_of_lookup_imap_2 (fun pno p => (pno, p)))|].
    by destruct (page_images im p).
Qed.

Lemma pdf_page_images_snoc (im : imaging) (doc : list pdf_page) (p : pdf_page) :
  pdf_page_images im (doc ++ [p])
  = pdf_page_images im doc
    ++ match page_images im p with
       | [] => []
       | images => [(Z.of_nat (length doc) + 1, images)]
       end.
Proof.
  unfold pdf_page_images. rewrite imap_app, omap_app. f_equal. simpl.
  rewrite Nat.add_0_r. by destruct (page_images im p).
Qed.

(** X5: The PDF image dict is keyed by 1-based page numbers in strictly
    increasing order; every key is a page of the document, its value is the
    list of that page's surviving images, and no key has an empty list. *)
Theorem pdf_page_images_keys_are_pages (im : imaging) (doc : list pdf_page) :
  StronglySorted Z.lt (pdf_page_images im doc).*1
  /\ forall page_no uris,
      (page_no, uris) ∈ pdf_page_images im doc ->
      1 <= page_no <= Z.of_nat (length doc)
      /\ uris <> []
      /\ exists p, doc !! Z.to_nat (page_no - 1) = Some p /\ uris = page_images im p.
Proof.
  split.
  - induction doc as [|p doc IH] using rev_ind; [constructor|].
    rewrite pdf_page_images_snoc, fmap_app.
    apply StronglySorted_app_2; [|done|].
    + intros k1 k2 Hk1 Hk2.
      apply list_elem_of_fmap in Hk1 as ([k uris] & -> & Hin).
      apply pdf_page_images_elem_of in Hin as (pno & q & Hq & -> & _).
      apply lookup_lt_Some in Hq. simpl.
      destruct (page_images im p); [by apply elem_of_nil in Hk2|].
      apply list_elem_of_singleton in Hk2 as ->. simpl. lia.
    + destruct (page_images im p); repeat constructor.
  - intros page_no uris Hin.
    apply pdf_page_images_elem_of in Hin as (pno & p & Hp & -> & -> & Hne).
    pose proof (lookup_lt_Some _ _ _ Hp).
    split; [lia|]. split; [done|]. exists p.
    by replace (Z.to_nat (Z.of_nat pno + 1 - 1)) with pno by lia.
Qed.

(** ** Statistics of an ingestion *)

Lemma count_kinds_total (elems : list element) :
  (count_kind image elems + count_kind table elems + count_kind text elems)%nat = length elems.
Proof.
  unfold count_kind. rewrite <- !length_app, <- app_assoc.
  change (length (all_elements_in_order elems) = length elems).
  by rewrite all_elements_in_order_perm.
Qed.

Lemma update_manifest_record (documents : list document)
    (doc_id original_filename fp now : string) (s : stats) :
  let '(documents', rec) := update_manifest documents doc_id original_filename fp now s in
  rec ∈ documents' /\ d_stats rec = s /\ d_uploadedAt rec = now
  /\ d_name rec = original_filename.
Proof.
  unfold update_manifest.
  destruct (list_find _ documents) as [[i d]|] eqn:Hfind.
  - apply list_find_Some in Hfind as (Hi & Hn & _). split_and!; try done.
    eapply list_elem_of_lookup_2, list_lookup_insert_eq. by eapply lookup_lt_Some.
  - split_and!; try done. apply elem_of_app. right. left.
Qed.

Lemma index_file_streaming_last_event (E : env) (st st' : state) (fp : string)
    (r : request) (original_filename : string) (x : extraction) (evs : list status)
    (processed : list element) :
  index_file_streaming E st fp r original_filename x = (evs, st', Ok tt) ->
  snd (build_multimodal_elements_streaming E fp x) = Ok processed ->
  last evs
  = Some (CompleteStatus "Processing complete!"
            (snd (update_manifest (default [] (documents_file st)) (req_doc_id r)
                                  original_filename fp (req_uploaded_at r)
                                  (stats_of processed)))
            (new_chat r original_filename)).
Proof.
  intros Hrun Hb. unfold index_file_streaming in Hrun.
  pose proof (get_vectorstore_frame E st) as (_ & Hdf & _).
  destruct (get_vectorstore E st) as [[vs0|m] st0]; [|done]. simpl in Hdf.
  destruct (build_multimodal_elements_streaming E fp x) as [evsb [p|m]]; [|done].
  simpl in Hb. injection Hb as ->.
  destruct (index_elements E _ _ _ _ _) as [[evsi ds] [vs'|m]]; [|done].
  cbn [documents_file set_index_file set_docstore] in Hrun. rewrite Hdf in Hrun.
  destruct (update_manifest _ _ _ _ _ _) as [docs' rec].
  injection Hrun as <- _.
  simpl. rewrite last_cons, last_app, last_cons, last_app. reflexivity.
Qed.

(** X6: The statistics written to the manifest by a completed ingestion add
    up to the number of elements built from the file, which is also the
    number of entries the ingestion added to the similarity index; the record
    carrying them is in the written manifest and is the one the [complete]
    event, the last event of the run, reports. *)
Theorem manifest_stats_count_indexed_elements (E : env) (st st' : state) (fp : string)
    (r : request) (original_filename : string) (x : extraction) (evs : list status) :
  index_file_streaming E st fp r original_filename x = (evs, st', Ok tt) ->
  exists doc vs,
    last evs = Some (CompleteStatus "Processing complete!" doc (new_chat r original_filename))
    /\ doc ∈ default [] (documents_file st')
    /\ (stats_images (d_stats doc) + stats_tables (d_stats doc) + stats_texts (d_stats doc))%nat
       = length (to_process E fp x)
    /\ fst (get_vectorstore E st) = Ok vs
    /\ length (default [] (index_file st')) = (length vs + length (to_process E fp x))%nat.
Proof.
  intros Hrun.
  pose proof (index_file_streaming_complete E st st' fp r original_filename x evs Hrun)
    as (vs & processed & Hvs & Hb & Hidx & _ & Hdocs & _).
  assert (length processed = length (to_process E fp x)) as Hlen.
  { rewrite <- (length_map doc_id processed), (build_elements_ids E fp x processed Hb).
    apply length_map. }
  pose proof (index_file_streaming_last_event E st st' fp r original_filename x evs
                processed Hrun Hb) as Hlast.
  pose proof (update_manifest_record (default [] (documents_file st)) (req_doc_id r)
                original_filename fp (req_uploaded_at r) (stats_of processed)) as Hrec.
  destruct (update_manifest _ _ _ _ _ _) as [docs' rec].
  destruct Hrec as (Hin & Hstats & _).
  exists rec, vs. split_and!.
  - exact Hlast.
  - by rewrite Hdocs.
  - rewrite Hstats. simpl. by rewrite count_kinds_total.
  - done.
  - rewrite Hidx. simpl. rewrite length_app, length_map.
    by rewrite all_elements_in_order_perm, Hlen.
Qed.

Lemma manifest_stats_count_indexed_elements_witness :
  let run := index_file_streaming Runs.E start_up "uploads/doc-1.docx"
               Scenario.first_upload "report.docx" Scenario.report in
  exists doc, doc ∈ default [] (documents_file run.1.2)
              /\ (stats_images (d_stats doc) + stats_tables (d_stats doc)
                  + stats_texts (d_stats doc))%nat = 2%nat.
Proof.
  intros run.
  destruct (manifest_stats_count_indexed_elements Runs.E start_up run.1.2 "uploads/doc-1.docx"
              Scenario.first_upload "report.docx" Scenario.report run.1.1 eq_refl)
    as (doc & vs & _ & Hin & Hsum & _).
  exists doc. split; [exact Hin|]. rewrite Hsum. reflexivity.
Defined.

(** ** An ingestion that raises *)

Lemma index_elements_fails_keeps_index (E : env) (elems : list element) (n total : nat)
    (ds ds' : gmap string element) (vs : list summary_doc) (evs : list status) (m : string) :
  index_elements E elems n total ds vs = (evs, ds', Raise m) ->
  dom ds ⊆ dom ds'.
Proof.
  intros Hrun id Hid. apply elem_of_dom. apply elem_of_dom in Hid.
  pose proof (index_elements_keeps E elems n total ds vs id Hid) as Hkeep.
  by rewrite Hrun in Hkeep.
Qed.

Lemma summarizing_events_not_terminal (n total : nat) :
  Forall (fun ev => is_terminal ev = false) (summarizing_events n total).
Proof.
  unfold summarizing_events. apply Forall_forall.
  intros ev Hev. apply list_elem_of_In, in_map_iff in Hev as (i & <- & _). done.
Qed.

Lemma build_events_not_terminal (E : env) (fp : string) (x : extraction) :
  Forall (fun ev => is_terminal ev = false)
         (fst (build_multimodal_elements_streaming E fp x)).
Proof.
  unfold build_multimodal_elements_streaming.
  destruct (assign_summaries _ 0 _) as [[imgs i1]|m1];
    [destruct (assign_summaries _ i1 _) as [[tabs i2]|m2];
     [destruct (assign_summaries _ i2 _) as [[txts i3]|m3]|]|];
    destruct (text_by_page _); simpl;
    repeat first [apply summarizing_events_not_terminal | constructor].
Qed.

Lemma index_elements_events_not_terminal (E : env) (elems : list element) (n total : nat)
    (ds : gmap string element) (vs : list summary_doc) :
  Forall (fun ev => is_terminal ev = false) (index_elements E elems n total ds vs).1.1.
Proof.
  revert n ds vs. induction elems as [|e rest IH]; intros n ds vs; simpl; [constructor|].
  destruct (embeds E _); [|by repeat constructor].
  specialize (IH (S n) (<[doc_id e:=e]> ds) (vs ++ [summary_document e])).
  destruct (index_elements E rest _ _ _ _) as [[evs0 ds0] r0]. simpl in *.
  by constructor.
Qed.

(** The statuses of an ingestion: progress only, closed by [complete] exactly
    when the run does not raise. *)
Lemma index_file_streaming_events (E : env) (st : state) (fp : string) (r : request)
    (original_filename : string) (x : extraction) :
  let run := index_file_streaming E st fp r original_filename x in
  match run.2 with
  | Ok _ =>
      exists body doc,
        run.1.1 = body ++ [CompleteStatus "Processing complete!" doc
                             (new_chat r original_filename)]
        /\ Forall (fun ev => is_terminal ev = false) body
  | Raise _ => Forall (fun ev => is_terminal ev = false) run.1.1
  end.
Proof.
  unfold index_file_streaming.
  destruct (get_vectorstore E st) as [[vs|m] st0]; [|constructor].
  pose proof (build_events_not_terminal E fp x) as Hbuild.
  destruct (build_multimodal_elements_streaming E fp x) as [evsb [processed|mb]];
    simpl in Hbuild.
  - pose proof (index_elements_events_not_terminal E (all_elements_in_order processed) 0
                  (length (all_elements_in_order processed)) (docstore st0) vs) as Hindex.
    destruct (index_elements E _ _ _ _ _) as [[evsi ds] [vs'|mi]]; simpl in Hindex.
    + destruct (update_manifest _ _ _ _ _ _) as [docs' rec]. cbn [fst snd].
      exists ([Progress "extraction" ("Processing file: " +:+ original_filename)] ++ evsb
              ++ [Progress "indexing" "Storing summaries and original documents..."] ++ evsi
              ++ [Progress "saving" "Saving vector index to disk...";
                  Progress "manifest" "Updating document manifest..."]), rec.
      split.
      * rewrite <- !app_assoc. reflexivity.
      * repeat first [assumption | apply Forall_cons; split | apply Forall_app; split
                      | apply Forall_nil | reflexivity].
    + simpl. repeat first [assumption | apply Forall_cons; split | apply Forall_app; split
                           | reflexivity].
  - simpl. by apply Forall_cons.
Qed.

(** X7: An ingestion that raises rolls nothing back and commits nothing
    further: the manifest, the chat history and the stored files are as
    before, the saved index is as before (or the freshly bootstrapped
    placeholder index), no [complete] status is among the events, and the
    content store has only gained keys, so elements written before the
    failure stay in the content store without an index entry on disk. *)
Theorem failed_ingestion_commits_only_store_writes (E : env) (st st' : state) (fp : string)
    (r : request) (original_filename : string) (x : extraction) (evs : list status)
    (m : string) :
  index_file_streaming E st fp r original_filename x = (evs, st', Raise m) ->
  documents_file st' = documents_file st
  /\ chat_history st' = chat_history st
  /\ uploads st' = uploads st
  /\ (index_file st' = index_file st
      \/ (index_file st = None /\ index_file st' = Some [dummy_doc]))
  /\ dom (docstore st) ⊆ dom (docstore st')
  /\ Forall (fun ev => is_terminal ev = false) evs.
Proof.
  intros Hrun.
  pose proof (index_file_streaming_events E st fp r original_filename x) as Hevs.
  rewrite Hrun in Hevs. simpl in Hevs.
  revert Hrun. unfold index_file_streaming, get_vectorstore.
  destruct (index_file st) as [vs|] eqn:Hidx.
  - destruct (build_multimodal_elements_streaming E fp x) as [evsb [processed|mb]].
    + destruct (index_elements E _ _ _ _ _) as [[evsi ds] [vs'|mi]] eqn:Hi.
      * destruct (update_manifest _ _ _ _ _ _); done.
      * intros [= <- <- <-]. simpl. split_and!; try done; [by left|].
        by eapply index_elements_fails_keeps_index.
    + intros [= <- <- <-]. simpl in *. split_and!; try done. by left.
  - destruct (embeds E _).
    + destruct (build_multimodal_elements_streaming E fp x) as [evsb [processed|mb]].
      * simpl. destruct (index_elements E _ _ _ _ _) as [[evsi ds] [vs'|mi]] eqn:Hi.
        -- destruct (update_manifest _ _ _ _ _ _); done.
        -- intros [= <- <- <-]. simpl. split_and!; try done; [by right|].
           by eapply index_elements_fails_keeps_index.
      * intros [= <- <- <-]. simpl in *. split_and!; try done. by right.
    + intros [= <- <- <-]. split_and!; try done. by left.
Qed.

(** The embedding fails on the second element: the picture is in the content
    store, the index on disk holds only the placeholder. *)
Lemma failed_ingestion_commits_only_store_writes_witness :
  let run := index_file_streaming Runs.E_embed_fails start_up "uploads/doc-1.docx"
               Scenario.first_upload "report.docx" Scenario.report in
  run.2 = Raise EMBED_ERROR
  /\ documents_file run.1.2 = Some []
  /\ chat_history run.1.2 = ∅
  /\ index_file run.1.2 = Some [dummy_doc]
  /\ is_Some (docstore run.1.2 !! "id-0")
  /\ index_ids run.1.2 = [].
Proof.
  intros run.
  destruct (failed_ingestion_commits_only_store_writes Runs.E_embed_fails start_up run.1.2
              "uploads/doc-1.docx" Scenario.first_upload "report.docx" Scenario.report
              run.1.1 EMBED_ERROR eq_refl) as (Hdocs & Hch & _ & Hidx & _).
  split; [reflexivity|]. split; [exact Hdocs|]. split; [exact Hch|].
  split; [by destruct Hidx as [Hsame|[_ Hboot]]|].
  split; [by eexists|reflexivity].
Defined.

(** ** The upload stream and what it leaves to serve *)

Lemma index_file_streaming_uploads (E : env) (st : state) (fp : string) (r : request)
    (original_filename : string) (x : extraction) :
  uploads (index_file_streaming E st fp r original_filename x).1.2 = uploads st.
Proof.
  unfold index_file_streaming.
  pose proof (get_vectorstore_frame E st) as (_ & _ & _ & Hup).
  destruct (get_vectorstore E st) as [[vs|m] st0]; simpl in *; [|done].
  destruct (build_multimodal_elements_streaming E fp x) as [evsb [processed|mb]]; [|done].
  destruct (index_elements E _ _ _ _ _) as [[evsi ds] [vs'|mi]]; [|done].
  by destruct (update_manifest _ _ _ _ _ _).
Qed.

(** X8: The upload stream opens with the setup status and closes with
    exactly one terminal status: [complete] when the indexing ran through, a
    single [error] status carrying the exception's message when it raised;
    every status in between is a progress status. *)
Theorem upload_stream_closes_with_one_terminal_status (E : env) (st : state)
    (tmp_path : string) (r : request) (filename : string) (x : extraction) :
  let run := index_file_streaming E st tmp_path r filename x in
  exists body final,
    fst (upload_generator E st tmp_path r filename x)
    = Progress "setup" ("Starting processing for " +:+ filename) :: body ++ [final]
    /\ Forall (fun ev => is_terminal ev = false) body
    /\ is_terminal final = true
    /\ match run.2 with
       | Ok _ => exists doc, final = CompleteStatus "Processing complete!" doc
                                       (new_chat r filename)
       | Raise m => final = Progress "error" m
       end
    /\ snd (upload_generator E st tmp_path r filename x) = run.1.2.
Proof.
  intros run. unfold upload_generator.
  pose proof (index_file_streaming_events E st tmp_path r filename x) as Hevs.
  fold run in Hevs. fold run.
  destruct run as [[evs st'] [[]|m]]; simpl in *.
  - destruct Hevs as (body & doc & -> & Hbody).
    exists body, (CompleteStatus "Processing complete!" doc (new_chat r filename)).
    split_and!; try done. by exists doc.
  - exists evs, (Progress "error" m). split_and!; done.
Qed.

Lemma upload_generator_complete_inv (E : env) (st : state) (tmp_path : string) (r : request)
    (filename : string) (x : extraction) (msg : string) (doc : document) (c : chat) :
  last (fst (upload_generator E st tmp_path r filename x)) = Some (CompleteStatus msg doc c) ->
  (index_file_streaming E st tmp_path r filename x).2 = Ok tt
  /\ snd (upload_generator E st tmp_path r filename x)
     = (index_file_streaming E st tmp_path r filename x).1.2.
Proof.
  unfold upload_generator.
  destruct (index_file_streaming E st tmp_path r filename x) as [[evs st'] [[]|m]]; simpl.
  - done.
  - rewrite last_cons, last_snoc. done.
Qed.

Lemma get_document_by_id_appended (docs : list document) (doc : document) :
  d_id doc ∉ map d_id docs ->
  get_document_by_id (docs ++ [doc]) (d_id doc) = Some doc.
Proof.
  intros Hfresh. unfold get_document_by_id.
  assert (list_find (fun d => d_id d = d_id doc) docs = None) as Hnone.
  { apply list_find_None, Forall_forall. intros d Hd Heq. apply Hfresh.
    rewrite <- Heq. apply list_elem_of_fmap. by exists d. }
  rewrite list_find_app_r by done. simpl. by rewrite decide_True.
Qed.

(** X9: After a successful upload of a file whose display name is new to
    the manifest and whose upload id is fresh, the file stored under
    uploads/<id><suffix> is what the document-file endpoint serves for that
    id (with media type application/pdf, whatever the suffix), and the
    conversation endpoint returns the new conversation together with the new
    manifest record. *)
Theorem first_upload_is_served (E : env) (st : state) (r : request)
    (filename file_suffix : string) (x : extraction) (msg : string) (doc : document) (c : chat) :
  let res := upload_file_endpoint E st r filename file_suffix x in
  last (fst res) = Some (CompleteStatus msg doc c) ->
  (forall d, d ∈ default [] (documents_file st) -> d_name d <> filename) ->
  req_doc_id r ∉ map d_id (default [] (documents_file st)) ->
  get_document_file_endpoint (snd res) (req_doc_id r)
  = Response ("uploads/" +:+ req_doc_id r +:+ file_suffix, "application/pdf")
  /\ exists rec,
      get_chat_history_endpoint (snd res) (req_chat_id r)
      = Response {| session_chat := new_chat r filename; session_document := Some rec |}
      /\ d_id rec = req_doc_id r /\ d_name rec = filename
      /\ d_path rec = "uploads/" +:+ req_doc_id r +:+ file_suffix.
Proof.
  intros res Hlast Hnew Hfresh. unfold res, upload_file_endpoint in *.
  set (path := "uploads/" +:+ req_doc_id r +:+ file_suffix) in *.
  set (st1 := set_uploads st ({[path]} ∪ uploads st)) in *.
  apply upload_generator_complete_inv in Hlast as [Hok ->].
  pose proof (index_file_streaming_uploads E st1 path r filename x) as Hup.
  destruct (index_file_streaming E st1 path r filename x) as [[evs st'] out] eqn:Hrun.
  simpl in Hok, Hup |- *. subst out.
  apply index_file_streaming_complete in Hrun
    as (vs & processed & _ & _ & _ & _ & Hdocs & Hch & _).
  change (documents_file st1) with (documents_file st) in Hdocs.
  change (chat_history st1) with (chat_history st) in Hch.
  rewrite update_manifest_new in Hdocs by done. simpl in Hdocs.
  set (rec := first_record (req_doc_id r) filename path (req_uploaded_at r)
                           (stats_of processed)) in *.
  assert (get_document_by_id (default [] (documents_file st) ++ [rec]) (req_doc_id r)
          = Some rec) as Hget by (by apply (get_document_by_id_appended _ rec)).
  split.
  - unfold get_document_file_endpoint. rewrite Hdocs, Hget. simpl.
    rewrite Hup. simpl. rewrite bool_decide_eq_true_2; [done|].
    apply elem_of_union_l, elem_of_singleton. done.
  - exists rec. split; [|done].
    unfold get_chat_history_endpoint. rewrite Hch, lookup_insert_eq, Hdocs. simpl.
    by rewrite Hget.
Qed.

Lemma first_upload_is_served_witness :
  get_document_file_endpoint Runs.after_first "doc-1"
  = Response ("uploads/doc-1.docx", "application/pdf").
Proof.
  destruct (first_upload_is_served Runs.E start_up Scenario.first_upload "report.docx" ".docx"
              Scenario.report "Processing complete!"
              {| d_id := "doc-1"; d_name := "report.docx"; d_path := "uploads/doc-1.docx";
                 d_uploadedAt := "2025-01-01T10:00:00";
                 d_preview := "Indexed with 1 texts, 1 images, 0 tables.";
                 d_stats := {| stats_images := 1; stats_tables := 0; stats_texts := 1 |} |}
              (new_chat Scenario.first_upload "report.docx")) as [Hserve _].
  - reflexivity.
  - intros d Hd. by apply elem_of_nil in Hd.
  - intros Hin. by apply elem_of_nil in Hin.
  - exact Hserve.
Defined.

(** X10: After a successful upload under a display name the manifest
    already holds (upload id fresh), the new file is stored under
    uploads/<id><suffix>, yet the document-file endpoint answers 404 for the
    new id and the conversation endpoint returns the new conversation with no
    document. *)
Theorem reuploaded_file_is_stored_but_not_served (E : env) (st : state) (r : request)
    (filename file_suffix : string) (x : extraction) (msg : string) (doc : document) (c : chat) :
  let res := upload_file_endpoint E st r filename file_suffix x in
  last (fst res) = Some (CompleteStatus msg doc c) ->
  (exists d, d ∈ default [] (documents_file st) /\ d_name d = filename) ->
  req_doc_id r ∉ map d_id (default [] (documents_file st)) ->
  "uploads/" +:+ req_doc_id r +:+ file_suffix ∈ uploads (snd res)
  /\ get_document_file_endpoint (snd res) (req_doc_id r)
     = HTTPException 404 "Document file not found."
  /\ get_chat_history_endpoint (snd res) (req_chat_id r)
     = Response {| session_chat := new_chat r filename; session_document := None |}.
Proof.
  intros res Hlast Hex Hfresh. unfold res, upload_file_endpoint in *.
  set (path := "uploads/" +:+ req_doc_id r +:+ file_suffix) in *.
  set (st1 := set_uploads st ({[path]} ∪ uploads st)) in *.
  apply upload_generator_complete_inv in Hlast as [Hok ->].
  pose proof (index_file_streaming_uploads E st1 path r filename x) as Hup.
  destruct (index_file_streaming E st1 path r filename x) as [[evs st'] out] eqn:Hrun.
  simpl in Hok, Hup |- *. subst out.
  apply index_file_streaming_complete in Hrun
    as (vs & processed & _ & _ & _ & _ & Hdocs & Hch & _).
  change (documents_file st1) with (documents_file st) in Hdocs.
  change (chat_history st1) with (chat_history st) in Hch.
  destruct (update_manifest_existing (default [] (documents_file st)) (req_doc_id r)
              filename path (req_uploaded_at r) (stats_of processed) Hex)
    as (i & d & Hi & _ & _ & Hupd).
  rewrite Hupd in Hdocs. simpl in Hdocs.
  assert (get_document_by_id
            (<[i:=reindexed_record d (req_uploaded_at r) (stats_of processed)]>
               (default [] (documents_file st))) (req_doc_id r) = None) as Hget.
  { apply get_document_by_id_None. by rewrite reindexed_ids. }
  split_and!.
  - rewrite Hup. apply elem_of_union_l, elem_of_singleton. done.
  - unfold get_document_file_endpoint. by rewrite Hdocs, Hget.
  - unfold get_chat_history_endpoint. rewrite Hch, lookup_insert_eq, Hdocs. simpl.
    by rewrite Hget.
Qed.

Lemma reuploaded_file_is_stored_but_not_served_witness :
  let res := upload_file_endpoint Runs.E_again Runs.after_first Scenario.second_upload
               "report.docx" ".docx" Scenario.report in
  "uploads/doc-2.docx" ∈ uploads (snd res)
  /\ get_document_file_endpoint (snd res) "doc-2" = HTTPException 404 "Document file not found."
  /\ get_document_file_endpoint (snd res) "doc-1"
     = Response ("uploads/doc-1.docx", "application/pdf").
Proof.
  intros res.
  destruct (reuploaded_file_is_stored_but_not_served Runs.E_again Runs.after_first
              Scenario.second_upload "report.docx" ".docx" Scenario.report
              "Processing complete!"
              {| d_id := "doc-1"; d_name := "report.docx"; d_path := "uploads/doc-1.docx";
                 d_uploadedAt := "2025-01-02T09:00:00";
                 d_preview := "Re-indexed with 1 texts, 1 images, 0 tables.";
                 d_stats := {| stats_images := 1; stats_tables := 0; stats_texts := 1 |} |}
              (new_chat Scenario.second_upload "report.docx")) as (Hstored & Hnot & _).
  - reflexivity.
  - rewrite manifest_after_first. eexists. split; [apply list_elem_of_here|reflexivity].
  - rewrite manifest_after_first. simpl. intros Hin.
    apply list_elem_of_singleton in Hin. discriminate.
  - split; [exact Hstored|]. split; [exact Hnot|reflexivity].
Defined.

(** ** What a query saves *)

Lemma stream_chunks_answer (contents : list string) (full_answer : string) :
  snd (stream_chunks contents full_answer) = full_answer +:+ received contents.
Proof.
  revert full_answer. unfold received, forwarded.
  induction contents as [|c rest IH]; intros full_answer; simpl.
  - by rewrite string_app_nil_r.
  - destruct (Str.nonempty c) eqn:Hc.
    + rewrite filter_cons_True by done.
      specialize (IH (full_answer +:+ c)).
      destruct (stream_chunks rest _) as [evs full]. simpl in *.
      by rewrite IH, string_app_assoc.
    + rewrite filter_cons_False by (by rewrite Hc). apply IH.
Qed.

Lemma blank_test (s : string) : negb (Str.nonempty s) || Str.all_space s = Str.all_space s.
Proof. by destruct s. Qed.

(** The events and the final text of the streaming step when the model's
    stream ends without raising. *)
Lemma stream_answer_finished (contents : list string) :
  stream_answer (contents, None)
  = if Str.all_space (received contents)
    then (map EvChunk (forwarded contents) ++ [EvChunk APOLOGY], APOLOGY)
    else (map EvChunk (forwarded contents), received contents).
Proof.
  unfold stream_answer. simpl.
  pose proof (stream_chunks_events contents "") as Hev.
  pose proof (stream_chunks_answer contents "") as Hfull.
  change ("" +:+ received contents) with (received contents) in Hfull.
  destruct (stream_chunks contents "") as [evs full]. simpl in *. subst.
  rewrite blank_test. by destruct (Str.all_space (received contents)).
Qed.

Lemma answer_generator_history (E : env) (st : state) (chat_id query : string) (k : Z)
    (vs summary_docs : list summary_doc) :
  fst (get_vectorstore E st) = Ok vs ->
  similarity_search E vs query k = Ok summary_docs ->
  let full_answer :=
    snd (stream_answer (astream (llm_user E)
                                (retrieved_messages (docstore st) query summary_docs))) in
  let st' := run_state (answer_generator E st chat_id query k) in
  chat_history st'
  = alter (fun c => append_message c (bot_message full_answer summary_docs)) chat_id
          (chat_history st)
  /\ docstore st' = docstore st
  /\ documents_file st' = documents_file st
  /\ uploads st' = uploads st
  /\ index_file st' = Some vs.
Proof.
  intros Hvs Hsearch. unfold answer_generator.
  pose proof (get_vectorstore_frame E st) as (Hds & Hdocs & Hch & Hup).
  pose proof (get_vectorstore_saved E st vs Hvs) as Hidx.
  destruct (get_vectorstore E st) as [[vs0|m] st0]; simpl in *; [|done].
  injection Hvs as ->. rewrite Hsearch, Hds.
  destruct (stream_answer _) as [evs full]. simpl. by rewrite Hch.
Qed.

(** X11: What is saved as the assistant's turn.  For a conversation that
    exists, a finished stream appends exactly one bot turn carrying the
    retrieved chunks: its text is the concatenation of the chunks forwarded to
    the consumer when that text has a character that is not white space, the
    fixed apology when [strip()] leaves nothing of it, and, when the model
    raised, the fallback fragment alone: the last chunk sent, one of the three
    fixed messages, chosen from the error text as [error_response] does when
    that text is of characters below 128 (the chunks forwarded before the
    error are not part of the saved text). *)
Theorem saved_answer_text (E : env) (st : state) (chat_id query : string) (k : Z)
    (vs summary_docs : list summary_doc) (c : chat) :
  fst (get_vectorstore E st) = Ok vs ->
  similarity_search E vs query k = Ok summary_docs ->
  chat_history st !! chat_id = Some c ->
  let messages := retrieved_messages (docstore st) query summary_docs in
  let run := answer_generator E st chat_id query k in
  exists full_answer,
    chat_history (run_state run)
    = <[chat_id := append_message c (bot_message full_answer summary_docs)]> (chat_history st)
    /\ (forall contents,
          astream (llm_user E) messages = (contents, None) ->
          full_answer = if Str.all_space (received contents) then APOLOGY
                        else received contents)
    /\ (forall contents error_msg,
          astream (llm_user E) messages = (contents, Some error_msg) ->
          full_answer ∈ [INDEX_RESPONSE; SAFETY_RESPONSE; GENERIC_RESPONSE]
          /\ run_events run
             = EvContext summary_docs :: map EvChunk (forwarded contents)
                 ++ [EvChunk full_answer; EvEnd]
          /\ (Str.is_ascii error_msg = true -> full_answer = error_response error_msg)).
Proof.
  intros Hvs Hsearch Hc messages run.
  destruct (answer_generator_history E st chat_id query k vs summary_docs Hvs Hsearch)
    as (Hch & _).
  destruct (answer_generator_run E st chat_id query k vs summary_docs Hvs Hsearch)
    as (Hev & _).
  fold messages in Hch, Hev. fold run in Hch, Hev.
  exists (snd (stream_answer (astream (llm_user E) messages))). split_and!.
  - rewrite Hch. apply map_eq. intros j.
    destruct (decide (chat_id = j)) as [<-|Hne].
    + by rewrite lookup_alter_eq, lookup_insert_eq, Hc.
    + by rewrite lookup_alter_ne, lookup_insert_ne.
  - intros contents ->. rewrite stream_answer_finished.
    by destruct (Str.all_space (received contents)).
  - intros contents error_msg Hstream. rewrite Hev, Hstream, stream_answer_error. simpl.
    split_and!; [|by rewrite <- app_assoc|done].
    unfold error_response.
    destruct (mentions_index_error error_msg), (mentions_safety error_msg); set_solver.
Qed.

Lemma saved_answer_text_witness :
  let st' := run_state (answer_generator Runs.E_blocked Runs.after_first "chat-1"
                                         Runs.question 1) in
  let st2 := run_state (answer_generator Runs.E_no_break_space Runs.after_first "chat-1"
                                         Runs.question 1) in
  (exists c, chat_history st' !! "chat-1" = Some c
             /\ c_messages c = [bot_message SAFETY_RESPONSE [dummy_doc]])
  /\ (exists c, chat_history st2 !! "chat-1" = Some c
                /\ c_messages c = [bot_message APOLOGY [dummy_doc]]).
Proof.
  intros st' st2. split.
  - destruct (saved_answer_text Runs.E_blocked Runs.after_first "chat-1" Runs.question 1
                (default [] (index_file Runs.after_first)) [dummy_doc]
                (new_chat Scenario.first_upload "report.docx") eq_refl eq_refl eq_refl)
      as (full & Hch & _ & Herr).
    fold st' in Hch.
    destruct (Herr ["Revenue "; ""; "grew"] "Response blocked: SAFETY" eq_refl)
      as (_ & _ & Hfull).
    rewrite (Hfull eq_refl) in Hch.
    eexists. split; [rewrite Hch; apply lookup_insert_eq|reflexivity].
  - destruct (saved_answer_text Runs.E_no_break_space Runs.after_first "chat-1" Runs.question 1
                (default [] (index_file Runs.after_first)) [dummy_doc]
                (new_chat Scenario.first_upload "report.docx") eq_refl eq_refl eq_refl)
      as (full & Hch & Hfinished & _).
    fold st2 in Hch.
    rewrite (Hfinished [String "194"%char (String "160"%char "")] eq_refl) in Hch.
    eexists. split; [rewrite Hch; apply lookup_insert_eq|reflexivity].
Defined.

(** X12: The query endpoint asks for the key first: a request without an
    [X-API-Key] header, or with an empty one, is refused with 401 whatever
    the conversation.  With a key, an unknown conversation is refused with
    404 "Chat session not found." before anything is saved or streamed.  For a
    known conversation whose retrieval returns, the conversation ends up with
    exactly two more turns, the user's query and then the bot's answer, after
    its earlier turns, and every other conversation is untouched.  When the
    retrieval raises, the user's turn is the only thing saved. *)
Theorem query_appends_user_then_bot_turn (E : env) (st : state) (x_api_key : option string)
    (chat_id query : string) (k : Z) :
  (x_api_key = None \/ x_api_key = Some "" ->
   query_chat_endpoint E st x_api_key chat_id query k
   = HTTPException 401 "API key is required. Please provide X-API-Key header.")
  /\ (forall api_key,
        x_api_key = Some api_key -> api_key <> "" ->
        (chat_history st !! chat_id = None ->
         query_chat_endpoint E st x_api_key chat_id query k
         = HTTPException 404 "Chat session not found.")
        /\ (forall c,
              chat_history st !! chat_id = Some c ->
              exists run,
                query_chat_endpoint E st x_api_key chat_id query k = Response run
                /\ (forall j, j <> chat_id ->
                      chat_history (run_state run) !! j = chat_history st !! j)
                /\ match run_outcome run with
                   | Ok _ =>
                       exists full_answer chunks c',
                         chat_history (run_state run) !! chat_id = Some c'
                         /\ c_messages c'
                            = c_messages c ++ [user_message query; bot_message full_answer chunks]
                         /\ run_events run = [EvContext chunks] ++ tail (run_events run)
                   | Raise _ =>
                       run_events run = []
                       /\ chat_history (run_state run) !! chat_id
                          = Some (append_message c (user_message query))
                   end)).
Proof.
  split.
  - by intros [->| ->].
  - intros api_key -> Hkey.
    assert (get_api_key_from_request (Some api_key) = Response api_key) as Hget.
    { unfold get_api_key_from_request. by destruct api_key. }
    split.
    + intros Hnone. unfold query_chat_endpoint. by rewrite Hget, Hnone.
    + intros c Hc. unfold query_chat_endpoint. rewrite Hget, Hc. eexists. split; [done|].
      set (st1 := set_chat_history st
                    (<[chat_id:=append_message c (user_message query)]> (chat_history st))).
      change (set_chat_history st _) with st1.
      pose proof (get_vectorstore_frame E st1) as (Hds & _ & Hch & _).
      unfold answer_generator.
      destruct (get_vectorstore E st1) as [[vs|m] st0] eqn:Hvs; simpl in *.
      * destruct (similarity_search E vs query k) as [summary_docs|m] eqn:Hsearch; simpl.
        -- destruct (stream_answer _) as [evs full] eqn:Hstream. simpl. rewrite Hch.
           split.
           ++ intros j Hne. by rewrite lookup_alter_ne, lookup_insert_ne.
           ++ exists full, summary_docs. eexists. split; [|split; [|done]].
              ** rewrite lookup_alter_eq, lookup_insert_eq. reflexivity.
              ** simpl. by rewrite <- app_assoc.
        -- rewrite Hch. split; [|split; [done|]].
           ++ intros j Hne. by rewrite lookup_insert_ne.
           ++ by rewrite lookup_insert_eq.
      * rewrite Hch. split; [|split; [done|]].
        -- intros j Hne. by rewrite lookup_insert_ne.
        -- by rewrite lookup_insert_eq.
Qed.

Lemma query_appends_user_then_bot_turn_witness :
  exists run c',
    query_chat_endpoint Runs.E Runs.after_first (Some "key-1") "chat-1" Runs.question 20
    = Response run
    /\ chat_history (run_state run) !! "chat-1" = Some c'
    /\ map sender (c_messages c') = ["user"; "bot"]
    /\ query_chat_endpoint Runs.E Runs.after_first (Some "key-1") "chat-7" Runs.question 20
       = HTTPException 404 "Chat session not found."
    /\ query_chat_endpoint Runs.E Runs.after_first None "chat-7" Runs.question 20
       = HTTPException 401 "API key is required. Please provide X-API-Key header.".
Proof.
  destruct (query_appends_user_then_bot_turn Runs.E Runs.after_first (Some "key-1") "chat-1"
              Runs.question 20) as [_ Hkey].
  destruct (Hkey "key-1" eq_refl) as [_ Hknown]; [discriminate|].
  destruct (Hknown (new_chat Scenario.first_upload "report.docx") eq_refl)
    as (run & Hrun & _ & Hturns).
  assert (run_outcome run = Ok tt) as Hout.
  { injection Hrun as <-. reflexivity. }
  rewrite Hout in Hturns. destruct Hturns as (full & chunks & c' & Hc' & Hmsgs & _).
  exists run, c'. split; [exact Hrun|]. split; [exact Hc'|]. split; [|split].
  - rewrite Hmsgs. reflexivity.
  - destruct (query_appends_user_then_bot_turn Runs.E Runs.after_first (Some "key-1") "chat-7"
                Runs.question 20) as [_ Hkey7].
    destruct (Hkey7 "key-1" eq_refl) as [Hunknown _]; [discriminate|].
    by apply Hunknown.
  - apply (query_appends_user_then_bot_turn Runs.E Runs.after_first None "chat-7").
    by left.
Defined.

(** X13: A query that runs to its end changes nothing on disk but the chat
    history: the content store, the manifest and the stored files are as
    before, and the saved index is the one the query loaded (created with the
    placeholder only when there was none). *)
Theorem query_touches_only_chat_history (E : env) (st : state) (chat_id query : string) (k : Z)
    (vs summary_docs : list summary_doc) :
  fst (get_vectorstore E st) = Ok vs ->
  similarity_search E vs query k = Ok summary_docs ->
  let st' := run_state (answer_generator E st chat_id query k) in
  docstore st' = docstore st
  /\ documents_file st' = documents_file st
  /\ uploads st' = uploads st
  /\ index_file st' = Some vs
  /\ (index_file st = Some vs \/ (index_file st = None /\ vs = [dummy_doc]))
  /\ dom (chat_history st') = dom (chat_history st).
Proof.
  intros Hvs Hsearch st'.
  destruct (answer_generator_history E st chat_id query k vs summary_docs Hvs Hsearch)
    as (Hch & Hds & Hdocs & Hup & Hidx).
  fold st' in Hch, Hds, Hdocs, Hup, Hidx.
  split_and!; try done.
  - revert Hvs. unfold get_vectorstore. destruct (index_file st) as [vs0|]; simpl.
    + intros [= ->]. by left.
    + destruct (embeds E _); simpl; [|done]. intros [= <-]. by right.
  - rewrite Hch. apply dom_alter_L.
Qed.

Lemma query_touches_only_chat_history_witness :
  let st' := run_state (answer_generator Runs.E start_up "chat-1" Runs.question 20) in
  index_file st' = Some [dummy_doc] /\ docstore st' = ∅ /\ documents_file st' = Some [].
Proof.
  intros st'.
  destruct (query_touches_only_chat_history Runs.E start_up "chat-1" Runs.question 20
              [dummy_doc] [dummy_doc] eq_refl eq_refl) as (Hds & Hdocs & _ & Hidx & _).
  split; [exact Hidx|]. split; [exact Hds|exact Hdocs].
Defined.

(** ** Deleting a conversation whose document stays *)

Lemma pop_document_absent (document_id : string) (docs : list document) :
  document_id ∉ map d_id docs -> pop_document document_id docs = (None, docs).
Proof.
  induction docs as [|d rest IH]; simpl; [done|].
  intros [Hne Hrest]%not_elem_of_cons.
  rewrite decide_False by done. by rewrite IH.
Qed.

Lemma other_chats_with_doc_true (document_id : string) (history : gmap string chat)
    (j : string) (c : chat) :
  history !! j = Some c -> c_document_id c = document_id ->
  other_chats_with_doc document_id history = true.
Proof.
  intros Hj Hdoc. unfold other_chats_with_doc. apply existsb_exists.
  exists (j, c). split.
  - apply list_elem_of_In. by apply elem_of_map_to_list.
  - simpl. by apply bool_decide_eq_true.
Qed.

(** X14: Deleting a conversation removes that conversation only, and reports
    [document_deleted = false], when another conversation references the same
    document, and also when no manifest record has the conversation's document
    id: the manifest, the stored files, the index and the content store are
    left as they were. *)
Theorem deleting_chat_spares_shared_or_unlisted_document (st : state) (chat_id : string)
    (c : chat) :
  chat_history st !! chat_id = Some c ->
  (exists j c', j <> chat_id /\ chat_history st !! j = Some c'
                /\ c_document_id c' = c_document_id c)
  \/ (exists docs, documents_file st = Some docs /\ c_document_id c ∉ map d_id docs) ->
  delete_chat_endpoint st chat_id
  = (Ok {| del_message := "Chat deleted successfully"; del_chat_id := chat_id;
           document_deleted := false |},
     set_chat_history st (delete chat_id (chat_history st))).
Proof.
  intros Hc Hcase. unfold delete_chat_endpoint. rewrite Hc.
  destruct Hcase as [(j & c' & Hne & Hj & Hdoc)|(docs & Hdocs & Habsent)].
  - rewrite (other_chats_with_doc_true (c_document_id c) _ j c');
      [by rewrite andb_false_r| |done].
    simpl. by rewrite lookup_delete_ne.
  - destruct (_ && _); [|done]. simpl. rewrite Hdocs.
    by rewrite pop_document_absent.
Qed.

Lemma deleting_chat_spares_shared_or_unlisted_document_witness :
  let st2 := snd (upload_file_endpoint Runs.E_again Runs.after_first Scenario.second_upload
                    "report.docx" ".docx" Scenario.report) in
  let st3 := snd (delete_chat_endpoint st2 "chat-2") in
  documents_file st3 = documents_file st2
  /\ uploads st3 = uploads st2
  /\ "uploads/doc-2.docx" ∈ uploads st3
  /\ chat_history st3 !! "chat-2" = None.
Proof.
  intros st2 st3. subst st3.
  rewrite (deleting_chat_spares_shared_or_unlisted_document st2 "chat-2"
             (new_chat Scenario.second_upload "report.docx") eq_refl).
  - split; [done|]. split; [done|]. split; [|apply lookup_delete_eq].
    apply (bool_decide_unpack _). vm_compute. exact I.
  - right. eexists. split; [reflexivity|]. simpl. intros Hin.
    apply list_elem_of_singleton in Hin. discriminate.
Defined.

(** ** Invariants of the reachable states *)

Lemma index_file_streaming_effects (E : env) (st : state) (fp : string) (r : request)
    (original_filename : string) (x : extraction) :
  let st' := (index_file_streaming E st fp r original_filename x).1.2 in
  (documents_file st' = documents_file st
   /\ chat_history st' = chat_history st
   /\ (index_file st' = index_file st
       \/ (index_file st = None /\ index_file st' = Some [dummy_doc])))
  \/ (exists vs elems s,
        (index_file st = Some vs \/ (index_file st = None /\ vs = [dummy_doc]))
        /\ index_file st' = Some (vs ++ map summary_document elems)
        /\ documents_file st'
           = Some (fst (update_manifest (default [] (documents_file st)) (req_doc_id r)
                                        original_filename fp (req_uploaded_at r) s))
        /\ chat_history st' = <[req_chat_id r := new_chat r original_filename]> (chat_history st)).
Proof.
  unfold index_file_streaming, get_vectorstore.
  destruct (index_file st) as [vs|] eqn:Hidx.
  - destruct (build_multimodal_elements_streaming E fp x) as [evsb [processed|mb]];
      [|left; simpl; by auto].
    destruct (index_elements E _ _ _ _ _) as [[evsi ds] [vs'|mi]] eqn:Hi;
      [|left; simpl; by auto].
    apply index_elements_ok in Hi as [-> ->].
    destruct (update_manifest _ _ _ _ _ _) as [docs' rec] eqn:Hm. right.
    exists vs, (all_elements_in_order processed), (stats_of processed). simpl in *.
    split_and!; try done; [by left|]. by rewrite Hm.
  - destruct (embeds E _); [|left; simpl; by auto].
    destruct (build_multimodal_elements_streaming E fp x) as [evsb [processed|mb]];
      [|left; simpl; by auto].
    simpl. destruct (index_elements E _ _ _ _ _) as [[evsi ds] [vs'|mi]] eqn:Hi;
      [|left; simpl; by auto].
    apply index_elements_ok in Hi as [-> ->].
    destruct (update_manifest _ _ _ _ _ _) as [docs' rec] eqn:Hm. right.
    exists [dummy_doc], (all_elements_in_order processed), (stats_of processed). simpl in *.
    split_and!; try done; [by right|]. by rewrite Hm.
Qed.

Lemma answer_generator_effects (E : env) (st : state) (chat_id query : string) (k : Z) :
  let st' := run_state (answer_generator E st chat_id query k) in
  documents_file st' = documents_file st
  /\ (index_file st' = index_file st
      \/ (index_file st = None /\ index_file st' = Some [dummy_doc]))
  /\ (chat_history st' = chat_history st
      \/ exists m, chat_history st'
                   = alter (fun c => append_message c m) chat_id (chat_history st)).
Proof.
  unfold answer_generator, get_vectorstore.
  destruct (index_file st) as [vs|] eqn:Hidx.
  - destruct (similarity_search E vs query k); simpl; [|by auto].
    destruct (stream_answer _) as [evs full]. simpl. split_and!; eauto.
  - destruct (embeds E _); simpl; [|by auto].
    destruct (similarity_search E _ query k); simpl; [|by auto].
    destruct (stream_answer _) as [evs full]. simpl. split_and!; eauto.
Qed.

Lemma delete_chat_endpoint_effects (st : state) (chat_id : string) :
  let st' := snd (delete_chat_endpoint st chat_id) in
  (chat_history st' = chat_history st \/ chat_history st' = delete chat_id (chat_history st))
  /\ (documents_file st' = documents_file st
      \/ exists docs document_id doc docs',
           documents_file st = Some docs
           /\ pop_document document_id docs = (Some doc, docs')
           /\ documents_file st' = Some docs').
Proof.
  unfold delete_chat_endpoint.
  destruct (chat_history st !! chat_id) as [c|]; [|by auto].
  destruct (_ && _); [|simpl; by auto]. simpl.
  destruct (documents_file st) as [docs|] eqn:Hdocs; [|simpl; by auto].
  destruct (pop_document _ docs) as [[d|] docs'] eqn:Hpop; [|simpl; by auto].
  split.
  - right. by destruct (Str.nonempty (d_path d)).
  - right. exists docs, (c_document_id c), d, docs'. split_and!; try done.
Qed.

(** Induction over the reachable states, one case per way the endpoints
    change the disk. *)
Lemma reachable_invariant (P : state -> Prop) :
  P start_up ->
  (forall st fs, P st -> P (set_uploads st fs)) ->
  (forall E st fp r fn x, P st -> P (index_file_streaming E st fp r fn x).1.2) ->
  (forall st k c m, P st -> chat_history st !! k = Some c ->
     P (set_chat_history st (<[k := append_message c m]> (chat_history st)))) ->
  (forall E st c q k, P st -> P (run_state (answer_generator E st c q k))) ->
  (forall st c, P st -> P (snd (delete_chat_endpoint st c))) ->
  forall st, reachable st -> P st.
Proof.
  intros Hstart Hfiles Hindex Huser Hanswer Hdelete st Hreach.
  induction Hreach as [|E st r fn suf x _ IH|E st key c q k run _ IH Hq|st c _ IH].
  - done.
  - unfold upload_file_endpoint, upload_generator.
    pose proof (Hindex E _ ("uploads/" +:+ req_doc_id r +:+ suf) r fn x
                  (Hfiles st ({[("uploads/" +:+ req_doc_id r +:+ suf)]} ∪ uploads st) IH))
      as Hres.
    destruct (index_file_streaming _ _ _ _ _ _) as [[evs st'] [u|m]]; exact Hres.
  - unfold query_chat_endpoint in Hq.
    destruct (get_api_key_from_request key); [|done..].
    destruct (chat_history st !! c) as [ch|] eqn:Hc; [|done]. injection Hq as <-.
    apply Hanswer. by apply Huser.
  - by apply Hdelete.
Qed.

Lemma update_manifest_names (documents : list document)
    (doc_id original_filename fp now : string) (s : stats) :
  NoDup (map d_name documents) ->
  NoDup (map d_name (fst (update_manifest documents doc_id original_filename fp now s))).
Proof.
  intros Hnd. unfold update_manifest.
  destruct (list_find _ documents) as [[i d]|] eqn:Hfind; simpl.
  - apply list_find_Some in Hfind as (Hi & _).
    change (map d_name) with (fmap (M:=list) d_name).
    rewrite list_fmap_insert. simpl. rewrite list_insert_id; [done|].
    by rewrite list_lookup_fmap, Hi.
  - apply list_find_None in Hfind. rewrite Forall_forall in Hfind.
    rewrite map_app. simpl. apply NoDup_app. split_and!; [done| |apply NoDup_singleton].
    intros n Hn ->%list_elem_of_singleton.
    apply list_elem_of_fmap in Hn as (d & Hname & Hd). by destruct (Hfind d Hd).
Qed.

Lemma pop_document_names (document_id : string) (docs docs' : list document) (doc : document) :
  pop_document document_id docs = (Some doc, docs') ->
  NoDup (map d_name docs) -> NoDup (map d_name docs').
Proof.
  intros Hpop Hnd. apply pop_document_split in Hpop as (before & after & -> & -> & _).
  rewrite map_app in *. simpl in Hnd.
  apply NoDup_app in Hnd as (Hb & Hdisj & Ha). apply NoDup_cons in Ha as [_ Ha].
  apply NoDup_app. split_and!; try done.
  intros n Hn Hn'. apply (Hdisj n Hn). by right.
Qed.

(** X15: In every state the endpoints can reach, the manifest file exists
    and no two of its records have the same display name. *)
Theorem manifest_names_stay_unique (st : state) :
  reachable st ->
  exists docs, documents_file st = Some docs /\ NoDup (map d_name docs).
Proof.
  apply (reachable_invariant
           (fun st => exists docs, documents_file st = Some docs /\ NoDup (map d_name docs))).
  - exists []. split; [done|apply NoDup_nil_2].
  - done.
  - intros E st0 fp r fn x (docs & Hdocs & Hnd).
    destruct (index_file_streaming_effects E st0 fp r fn x)
      as [(Hsame & _)|(vs & elems & s & _ & _ & Hnew & _)].
    + exists docs. by rewrite Hsame.
    + eexists. split; [exact Hnew|]. rewrite Hdocs. simpl. by apply update_manifest_names.
  - done.
  - intros E st0 c q k (docs & Hdocs & Hnd).
    destruct (answer_generator_effects E st0 c q k) as (Hsame & _).
    exists docs. by rewrite Hsame.
  - intros st0 c (docs & Hdocs & Hnd).
    destruct (delete_chat_endpoint_effects st0 c)
      as (_ & [Hsame|(docs0 & id & doc & docs' & Hdocs0 & Hpop & Hnew)]).
    + exists docs. by rewrite Hsame.
    + exists docs'. split; [done|]. rewrite Hdocs in Hdocs0. injection Hdocs0 as <-.
      by eapply pop_document_names.
Qed.

Lemma manifest_names_stay_unique_witness :
  exists docs,
    documents_file (snd (upload_file_endpoint Runs.E_again Runs.after_first
                           Scenario.second_upload "report.docx" ".docx" Scenario.report))
    = Some docs
    /\ NoDup (map d_name docs).
Proof.
  apply manifest_names_stay_unique. apply reach_upload, reach_upload, reach_start.
Defined.

(** X16: In every reachable state a saved index starts with the placeholder
    entry, and every entry after it carries the id, type and source of an
    element. *)
Theorem saved_index_is_placeholder_then_elements (st : state) :
  reachable st ->
  index_file st = None
  \/ exists entries,
       index_file st = Some (dummy_doc :: entries)
       /\ Forall (fun d => is_Some (m_doc_id (doc_metadata d))
                           /\ is_Some (m_type (doc_metadata d))
                           /\ is_Some (m_source (doc_metadata d))) entries.
Proof.
  set (Q := fun d : summary_doc =>
              is_Some (m_doc_id (doc_metadata d)) /\ is_Some (m_type (doc_metadata d))
              /\ is_Some (m_source (doc_metadata d))).
  apply (reachable_invariant
           (fun st => index_file st = None
                      \/ exists entries, index_file st = Some (dummy_doc :: entries)
                                         /\ Forall Q entries)).
  - by left.
  - done.
  - intros E st0 fp r fn x Hinv.
    destruct (index_file_streaming_effects E st0 fp r fn x)
      as [(_ & _ & [Hsame|[_ Hboot]])|(vs & elems & s & Hvs & Hnew & _)].
    + by rewrite Hsame.
    + right. exists []. by split.
    + right. assert (Forall Q (map summary_document elems)) as Helems.
      { apply Forall_forall. intros d Hd.
        apply list_elem_of_In, in_map_iff in Hd as (e & <- & _).
        unfold Q. simpl. split_and!; by eexists. }
      destruct Hvs as [Hload|[_ ->]].
      * destruct Hinv as [Hnone|(entries & Hidx & Hentries)]; [congruence|].
        rewrite Hidx in Hload. injection Hload as <-.
        exists (entries ++ map summary_document elems). split; [done|].
        by apply Forall_app.
      * by exists (map summary_document elems).
  - done.
  - intros E st0 c q k Hinv.
    destruct (answer_generator_effects E st0 c q k) as (_ & [Hsame|[_ Hboot]] & _).
    + by rewrite Hsame.
    + right. exists []. by split.
  - intros st0 c Hinv. by rewrite (proj1 (delete_chat_endpoint_stores st0 c)).
Qed.

Lemma saved_index_is_placeholder_then_elements_witness :
  exists entries,
    index_file Runs.after_first = Some (dummy_doc :: entries) /\ length entries = 2%nat.
Proof.
  destruct (saved_index_is_placeholder_then_elements Runs.after_first)
    as [Hnone|(entries & Hidx & _)].
  - apply reach_upload, reach_start.
  - discriminate Hnone.
  - exists entries. split; [exact Hidx|].
    assert (index_file Runs.after_first
            = Some (dummy_doc :: map summary_document
                      [set_summary (mk_element "id-0" image "data:image/png;base64,AAA"
                                      "uploads/doc-1.docx" (Some (Some 2)) None None None None None)
                                   "Image content could not be analyzed.";
                       set_summary (mk_element "id-1" text "Revenue grew 12% in Q3."
                                      "uploads/doc-1.docx" (Some (Some 1)) None (Some 0) None None None)
                                   "This document/research paper discusses: Revenue grew 12% in Q3."]))
      as Hval by reflexivity.
    rewrite Hval in Hidx. by injection Hidx as <-.
Defined.

(** X17: In every reachable state each conversation is filed under its own
    id. *)
Theorem chats_are_keyed_by_their_id (st : state) :
  reachable st ->
  forall chat_id c, chat_history st !! chat_id = Some c -> c_id c = chat_id.
Proof.
  apply (reachable_invariant
           (fun st => forall chat_id c, chat_history st !! chat_id = Some c -> c_id c = chat_id)).
  - intros chat_id c Hc. simpl in Hc. by rewrite lookup_empty in Hc.
  - done.
  - intros E st0 fp r fn x Hinv chat_id c.
    destruct (index_file_streaming_effects E st0 fp r fn x)
      as [(_ & Hsame & _)|(vs & elems & s & _ & _ & _ & Hnew)].
    + rewrite Hsame. apply Hinv.
    + rewrite Hnew. destruct (decide (req_chat_id r = chat_id)) as [<-|Hne].
      * rewrite lookup_insert_eq. by intros [= <-].
      * rewrite lookup_insert_ne by done. apply Hinv.
  - intros st0 j c0 m Hinv Hj chat_id c. simpl.
    destruct (decide (j = chat_id)) as [<-|Hne].
    + rewrite lookup_insert_eq. intros [= <-]. simpl. by apply Hinv.
    + rewrite lookup_insert_ne by done. apply Hinv.
  - intros E st0 j q k Hinv chat_id c.
    destruct (answer_generator_effects E st0 j q k) as (_ & _ & [Hsame|[m Halter]]).
    + rewrite Hsame. apply Hinv.
    + rewrite Halter. destruct (decide (j = chat_id)) as [<-|Hne].
      * rewrite lookup_alter_eq. destruct (chat_history st0 !! j) as [c0|] eqn:Hj; [|done].
        simpl. intros [= <-]. simpl. by apply Hinv.
      * rewrite lookup_alter_ne by done. apply Hinv.
  - intros st0 j Hinv chat_id c.
    destruct (delete_chat_endpoint_effects st0 j) as ([Hsame|Hdel] & _).
    + rewrite Hsame. apply Hinv.
    + rewrite Hdel. destruct (decide (j = chat_id)) as [<-|Hne].
      * by rewrite lookup_delete_eq.
      * rewrite lookup_delete_ne by done. apply Hinv.
Qed.

Lemma chats_are_keyed_by_their_id_witness :
  exists c, chat_history Runs.after_first !! "chat-1" = Some c /\ c_id c = "chat-1".
Proof.
  exists (new_chat Scenario.first_upload "report.docx"). split; [reflexivity|].
  apply (chats_are_keyed_by_their_id Runs.after_first).
  - apply reach_upload, reach_start.
  - reflexivity.
Defined.

(** ** Classifying error texts *)

Lemma prefix_app (p s : string) :
  String.prefix p s = true <-> exists post, s = p +:+ post.
Proof.
  revert s. induction p as [|c p IH]; intros s.
  - split; [by exists s|]. by destruct s.
  - destruct s as [|d s]; simpl.
    + split; [done|]. by intros [post [=]].
    + destruct (Ascii.ascii_dec c d) as [->|Hne].
      * rewrite IH. split.
        -- intros [post ->]. by exists post.
        -- intros [post Heq]. exists post.
           change (String d s = String d (p +:+ post)) in Heq. by injection Heq.
      * split; [done|]. intros [post Heq].
        change (String d s = String c (p +:+ post)) in Heq. by injection Heq as -> _.
Qed.

Lemma str_in_app (sub s : string) :
  Str.str_in sub s = true <-> exists pre post, s = pre +:+ sub +:+ post.
Proof.
  split.
  - induction s as [|c s IH].
    + destruct sub as [|a sub]; [by exists "", ""|]. intros Hf. discriminate Hf.
    + cbn [Str.str_in]. destruct (String.prefix sub (String c s)) eqn:Hp.
      * apply prefix_app in Hp as [post Heq]. intros _. exists "", post. exact Heq.
      * intros Hin. apply IH in Hin as (pre & post & ->). by exists (String c pre), post.
  - intros (pre & post & ->). induction pre as [|c pre IH].
    + change ("" +:+ sub +:+ post) with (sub +:+ post).
      assert (String.prefix sub (sub +:+ post) = true) as Hp by (apply prefix_app; eauto).
      destruct (sub +:+ post); cbn [Str.str_in]; by rewrite Hp.
    + change (String c pre +:+ sub +:+ post) with (String c (pre +:+ sub +:+ post)).
      cbn [Str.str_in]. rewrite IH. by destruct (String.prefix _ _).
Qed.

Lemma lower_app (a b : string) : lower (a +:+ b) = lower a +:+ lower b.
Proof.
  induction a as [|c a IH]; [done|].
  change (lower (String c (a +:+ b)) = String (lower_char c) (lower a +:+ lower b)).
  simpl. by rewrite IH.
Qed.

Lemma api_key_invalid_is_invalid (error_msg : string) :
  Str.str_in "API_KEY_INVALID" error_msg = true ->
  Str.str_in "invalid" (lower error_msg) = true.
Proof.
  intros (pre & post & ->)%str_in_app. apply str_in_app.
  exists (lower pre +:+ "api_key_"), (lower post).
  rewrite !lower_app, string_app_assoc. reflexivity.
Qed.

(** X18: Validating an API key whose probe call fails answers 401 exactly
    when the lower-cased error text contains "invalid" (the separate test for
    "API_KEY_INVALID" never decides the outcome), and 500 with the error text
    appended otherwise; a missing or empty key is refused with 401 before any
    probe. *)
Theorem key_validation_rejects_by_error_text (embed_query : string -> result unit) :
  (forall api_key error_msg,
      Str.nonempty api_key = true ->
      embed_query api_key = Raise error_msg ->
      validate_api_key_endpoint embed_query (Some api_key)
      = if Str.str_in "invalid" (lower error_msg)
        then HTTPException 401 "Invalid API key. Please check your Google Gemini API key."
        else HTTPException 500 ("Failed to validate API key: " +:+ error_msg))
  /\ validate_api_key_endpoint embed_query None
     = HTTPException 401 "API key is required. Please provide X-API-Key header."
  /\ validate_api_key_endpoint embed_query (Some "")
     = HTTPException 401 "API key is required. Please provide X-API-Key header.".
Proof.
  split; [|done]. intros api_key error_msg Hkey Hprobe.
  unfold validate_api_key_endpoint, get_api_key_from_request. rewrite Hkey, Hprobe.
  destruct (Str.str_in "invalid" (lower error_msg)) eqn:Hinv.
  - by rewrite orb_true_r.
  - rewrite orb_false_r.
    destruct (Str.str_in "API_KEY_INVALID" error_msg) eqn:Hapi; [|done].
    apply api_key_invalid_is_invalid in Hapi. congruence.
Qed.

Lemma key_validation_rejects_by_error_text_witness :
  validate_api_key_endpoint (fun _ => Raise "400 API_KEY_INVALID: key not valid") (Some "k")
  = HTTPException 401 "Invalid API key. Please check your Google Gemini API key."
  /\ validate_api_key_endpoint (fun _ => Raise "deadline exceeded") (Some "k")
     = HTTPException 500 "Failed to validate API key: deadline exceeded".
Proof.
  split.
  - by rewrite (proj1 (key_validation_rejects_by_error_text _) "k"
                  "400 API_KEY_INVALID: key not valid" eq_refl eq_refl).
  - by rewrite (proj1 (key_validation_rejects_by_error_text _) "k"
                  "deadline exceeded" eq_refl eq_refl).
Defined.

Lemma upper_lower_char (c : ascii) : Str.upper_char (lower_char c) = Str.upper_char c.
Proof. destruct c as [[] [] [] [] [] [] [] []]; reflexivity. Qed.

Lemma upper_upper_char (c : ascii) : Str.upper_char (Str.upper_char c) = Str.upper_char c.
Proof. destruct c as [[] [] [] [] [] [] [] []]; reflexivity. Qed.

Lemma upper_lower (s : string) : Str.upper (lower s) = Str.upper s.
Proof. induction s as [|c s IH]; simpl; [done|]. by rewrite IH, upper_lower_char. Qed.

Lemma upper_upper (s : string) : Str.upper (Str.upper s) = Str.upper s.
Proof. induction s as [|c s IH]; simpl; [done|]. by rewrite IH, upper_upper_char. Qed.

(** X19: For an error text of characters below 128, whether it counts as a
    safety block does not depend on the case of its letters: the test gives
    the same answer on the text, on its lower-cased and on its upper-cased
    form. *)
Theorem safety_test_ignores_case (error_msg : string) :
  Str.is_ascii error_msg = true ->
  mentions_safety (lower error_msg) = mentions_safety error_msg
  /\ mentions_safety (Str.upper error_msg) = mentions_safety error_msg.
Proof.
  intros _. unfold mentions_safety. by rewrite upper_lower, upper_upper.
Qed.

Lemma safety_test_ignores_case_witness :
  mentions_safety "response blocked by filter" = mentions_safety "Response Blocked by filter"
  /\ mentions_safety "RESPONSE BLOCKED BY FILTER" = mentions_safety "Response Blocked by filter"
  /\ mentions_safety "Response Blocked by filter" = true.
Proof.
  destruct (safety_test_ignores_case "Response Blocked by filter" eq_refl) as [Hlower Hupper].
  split; [exact Hlower|]. split; [exact Hupper|reflexivity].
Defined.

(** ** [query_rag] on matches without an element id *)

Lemma doc_ids_of_without_ids (summary_docs : list summary_doc) :
  Forall (fun d => m_doc_id (doc_metadata d) = None) summary_docs ->
  doc_ids_of summary_docs = [].
Proof.
  induction 1 as [|d rest Hd _ IH]; [done|].
  unfold doc_ids_of in *. simpl. by rewrite Hd.
Qed.

(** X20: When the search returns matches but none of them carries an element
    id (as the placeholder entry does not), [query_rag] returns the
    nothing-found answer together with those matches and does not call the
    model. *)
Theorem query_rag_without_element_ids (E : env) (vs : list summary_doc)
    (ds : gmap string element) (query : string) (k : Z) (summary_docs : list summary_doc) :
  similarity_search E vs query k = Ok summary_docs ->
  summary_docs <> [] ->
  Forall (fun d => m_doc_id (doc_metadata d) = None) summary_docs ->
  query_rag E (Some vs) ds query k
  = (Ok {| answer := "No relevant documents found for your query.";
           chunks := summary_docs; element_types := None |}, []).
Proof.
  intros Hsearch Hne Hnoid. unfold query_rag. rewrite Hsearch.
  pose proof (doc_ids_of_without_ids summary_docs Hnoid) as Hids.
  destruct summary_docs as [|d rest]; [done|]. by rewrite Hids.
Qed.

Lemma query_rag_without_element_ids_witness :
  query_rag Runs.E (Some [dummy_doc]) ∅ Runs.question 20
  = (Ok {| answer := "No relevant documents found for your query.";
           chunks := [dummy_doc]; element_types := None |}, []).
Proof.
  apply (query_rag_without_element_ids Runs.E [dummy_doc] ∅ Runs.question 20 [dummy_doc]).
  - reflexivity.
  - discriminate.
  - by repeat constructor.
Defined.

(** ** Image elements of a PDF *)

(** X21: For a file whose path ends in ".pdf" in any letter case, every
    image element comes from the PDF reader and not from the partitioner: it
    carries a 1-based page number of the document, its index among that
    page's surviving images, and an original that is a PNG data URI. *)
Theorem pdf_image_elements_carry_page_and_png (E : env) (fp : string) (x : extraction)
    (e : element) :
  endswith (lower fp) ".pdf" = true ->
  e ∈ images_to_process E fp x ->
  type e = image /\ source e = fp
  /\ exists page_no i p,
      page e = Some (Some page_no)
      /\ 1 <= page_no <= Z.of_nat (length (pdf_doc x))
      /\ pdf_doc x !! Z.to_nat (page_no - 1) = Some p
      /\ image_index e = Some (Z.of_nat i)
      /\ page_images (env_imaging E) p !! i = Some (original e)
      /\ exists b64, original e = "data:image/png;base64," +:+ b64.
Proof.
  intros Hpdf He. unfold images_to_process in He. rewrite Hpdf in He.
  unfold with_ids in He. apply elem_of_lookup_imap in He as (j & f & -> & Hf).
  apply list_elem_of_lookup_2, list_elem_of_In, in_flat_map in Hf as ([pno uris] & Hp & Hf).
  apply list_elem_of_In, elem_of_lookup_imap in Hf as (i & u & -> & Hu).
  apply list_elem_of_In in Hp. simpl. split; [done|]. split; [done|].
  pose proof (page_images_are_png_data_uris _ _ _ _ u Hp (list_elem_of_lookup_2 _ _ _ Hu))
    as Hpng.
  apply pdf_page_images_elem_of in Hp as (n & p & Hn & -> & -> & _).
  pose proof (lookup_lt_Some _ _ _ Hn).
  exists (Z.of_nat n + 1), i, p. split_and!; try done; try lia.
  by replace (Z.to_nat (Z.of_nat n + 1 - 1)) with n by lia.
Qed.

Lemma pdf_image_elements_carry_page_and_png_witness :
  let chart := {| pix_n := 3; pix_width := 640; pix_height := 480; pix_samples := [] |} in
  let x := {| image_elements_raw := [{| raw_image_uri := "ignored"; raw_image_page := None |}];
              table_elements_raw := []; text_elements_raw := [];
              pdf_doc := [{| get_images := []; get_drawings := [] |};
                          {| get_images := [Ok chart]; get_drawings := [] |}] |} in
  let e := mk_element "id-0" image "data:image/png;base64,iVBORw0KGgo=" "uploads/Doc.PDF"
                      (Some (Some 2)) (Some 0) None None None None in
  images_to_process Runs.E "uploads/Doc.PDF" x = [e]
  /\ exists page_no, page e = Some (Some page_no) /\ 1 <= page_no <= 2.
Proof.
  intros chart x e. split; [reflexivity|].
  destruct (pdf_image_elements_carry_page_and_png Runs.E "uploads/Doc.PDF" x e eq_refl)
    as (_ & _ & page_no & i & p & Hpage & Hrange & _).
  - change (e ∈ [e]). left.
  - exists page_no. split; [exact Hpage|exact Hrange].
Defined.

(** ** Tables carry no page *)

(** X22: A table element is built without a page number: its index entry
    has no page in its metadata, and when a query retrieves it the context
    labels it "[From Page Unknown]", whatever page the table was on. *)
Theorem tables_are_cited_without_page (E : env) (fp : string) (x : extraction) (e : element) :
  e ∈ tables_to_process E fp x ->
  type e = table
  /\ page e = None
  /\ is_Some (text_content e) /\ is_Some (html_content e)
  /\ forall s,
      m_page (doc_metadata (summary_document (set_summary e s))) = None
      /\ from_page (set_summary e s) = "[From Page Unknown]" +:+ Str.nl +:+ original e.
Proof.
  unfold tables_to_process, with_ids. intros He.
  apply elem_of_lookup_imap in He as (j & f & -> & Hf).
  apply list_elem_of_lookup_2, list_elem_of_In, in_map_iff in Hf as (raw & <- & _).
  unfold table_element. simpl. split_and!; try done; by eexists.
Qed.

Lemma tables_are_cited_without_page_witness :
  let x := {| image_elements_raw := [];
              table_elements_raw := [{| raw_table_text := "Q3 12%"; raw_table_html := "" |}];
              text_elements_raw := []; pdf_doc := [] |} in
  let e := mk_element "id-0" table "<table><tr><td>Q3 12%</td></tr></table>" "report.docx"
                      None None None (Some "Q3 12%")
                      (Some "<table><tr><td>Q3 12%</td></tr></table>") None in
  tables_to_process Runs.E "report.docx" x = [e]
  /\ from_page (set_summary e "digest")
     = "[From Page Unknown]" +:+ Str.nl +:+ "<table><tr><td>Q3 12%</td></tr></table>".
Proof.
  intros x e. split; [reflexivity|].
  destruct (tables_are_cited_without_page Runs.E "report.docx" x e) as (_ & _ & _ & _ & Hs).
  - change (e ∈ [e]). left.
  - exact (proj2 (Hs "digest")).
Defined.

(** ** Summaries across completion orders *)

Lemma with_ids_Forall (E : env) (start : nat) (fs : list (string -> element))
    (P : element -> Prop) :
  Forall (fun f : string -> element => forall id, P (f id)) fs ->
  Forall P (with_ids E start fs).
Proof.
  intros Hfs. apply Forall_forall. intros e He. unfold with_ids in He.
  apply elem_of_lookup_imap in He as (j & f & -> & Hf).
  rewrite Forall_forall in Hfs. apply Hfs. by eapply list_elem_of_lookup_2.
Qed.

Lemma images_to_process_kind (E : env) (fp : string) (x : extraction) :
  Forall (fun e => type e = image) (images_to_process E fp x).
Proof.
  unfold images_to_process. apply with_ids_Forall, Forall_forall. intros f Hf.
  destruct (endswith _ _).
  - apply list_elem_of_In, in_flat_map in Hf as ([pno uris] & _ & Hf).
    apply list_elem_of_In, elem_of_lookup_imap in Hf as (i & u & -> & _). done.
  - apply list_elem_of_In, in_map_iff in Hf as (r & <- & _). done.
Qed.

Lemma tables_to_process_kind (E : env) (fp : string) (x : extraction) :
  Forall (fun e => type e = table) (tables_to_process E fp x).
Proof.
  unfold tables_to_process. apply with_ids_Forall, Forall_forall. intros f Hf.
  apply list_elem_of_In, in_map_iff in Hf as (r & <- & _). done.
Qed.

Lemma texts_to_process_kind (E : env) (fp : string) (x : extraction) :
  Forall (fun e => type e = text) (texts_to_process E fp x).
Proof.
  apply Forall_forall. intros e He.
  by destruct (texts_to_process_shape E fp x e He) as (p & i & Ht & _).
Qed.

Lemma map_own_summary (E : env) (k : kind) (task : element -> string) (elems : list element) :
  (forall e, type e = k -> own_summary E e = task e) ->
  Forall (fun e => type e = k) elems ->
  map task elems = map (own_summary E) elems.
Proof.
  intros Hown Hk. induction Hk as [|e rest He _ IH]; simpl; [done|].
  by rewrite IH, Hown.
Qed.

Lemma all_tasks_own_summaries (E : env) (fp : string) (x : extraction) :
  all_tasks E fp x = map (own_summary E) (to_process E fp x).
Proof.
  unfold all_tasks, to_process. rewrite !map_app.
  rewrite (map_own_summary E image (image_task E) (images_to_process E fp x));
    [|by intros e H; unfold own_summary; rewrite H|apply images_to_process_kind].
  rewrite (map_own_summary E table (table_task E) (tables_to_process E fp x));
    [|by intros e H; unfold own_summary; rewrite H|apply tables_to_process_kind].
  rewrite (map_own_summary E text text_task (texts_to_process E fp x));
    [|by intros e H; unfold own_summary; rewrite H|apply texts_to_process_kind].
  done.
Qed.

Lemma zip_with_map_r {A B C} (f : A -> B -> C) (g : A -> B) (l : list A) :
  zip_with f l (map g l) = map (fun a => f a (g a)) l.
Proof. induction l as [|a l IH]; simpl; [done|]. by rewrite IH. Qed.

Lemma summaries_of_zip (elems : list element) (summaries : list string) :
  length elems = length summaries ->
  map summary (zip_with set_summary elems summaries) = map Some summaries.
Proof.
  revert summaries. induction elems as [|e rest IH]; intros [|s summaries] Hlen;
    simpl in *; try done.
  f_equal. apply IH. lia.
Qed.

(** X23: When the summarization tasks finish in the order they were
    submitted, the generator ends normally and every element carries the
    summary computed from its own content, in submission order. *)
Theorem in_order_completion_gives_own_summaries (E : env) (fp : string) (x : extraction) :
  completion_order E = seq 0 (length (all_tasks E fp x)) ->
  snd (build_multimodal_elements_streaming E fp x)
  = Ok (map (fun e => set_summary e (own_summary E e)) (to_process E fp x)).
Proof.
  intros Horder.
  rewrite (in_order_completion_pairs_each_element E fp x Horder).
  by rewrite all_tasks_own_summaries, zip_with_map_r.
Qed.

Lemma in_order_completion_gives_own_summaries_witness :
  snd (build_multimodal_elements_streaming Runs.E "report.docx" Scenario.report)
  = Ok [set_summary Scenario.picture "Image content could not be analyzed.";
        set_summary Scenario.sentence
          "This document/research paper discusses: Revenue grew 12% in Q3."].
Proof.
  rewrite (in_order_completion_gives_own_summaries Runs.E "report.docx" Scenario.report eq_refl).
  reflexivity.
Defined.

(** X24: In whatever order the summarization tasks finish, no summary is
    lost or duplicated: the generator ends normally with the elements in
    submission order under their own ids, and the summaries they carry are,
    up to order, exactly the summaries computed for the elements. *)
Theorem summaries_are_permuted_not_lost (E : env) (fp : string) (x : extraction) :
  completion_order E ≡ₚ seq 0 (length (all_tasks E fp x)) ->
  exists processed,
    snd (build_multimodal_elements_streaming E fp x) = Ok processed
    /\ map doc_id processed = map doc_id (to_process E fp x)
    /\ map original processed = map original (to_process E fp x)
    /\ map summary processed
       ≡ₚ map (fun e => Some (own_summary E e)) (to_process E fp x).
Proof.
  intros Hperm.
  pose proof (build_elements_positional E fp x Hperm) as Hb.
  pose proof (as_completed_length _ _ Hperm) as Hlen.
  fold (summaries_of E fp x) in Hlen. rewrite all_tasks_length in Hlen.
  eexists. split; [exact Hb|]. split; [by apply build_elements_ids|]. split.
  - pose proof (build_elements_shape E fp x _ Hb) as Hshape.
    clear -Hshape. induction Hshape as [|e0 e l k [s ->] _ IH]; simpl; [done|].
    by rewrite IH.
  - rewrite summaries_of_zip by done.
    assert (summaries_of E fp x ≡ₚ all_tasks E fp x) as Hss.
    { unfold summaries_of, as_completed. rewrite Hperm.
      apply Permutation_refl'. apply (as_completed_in_order (all_tasks E fp x)). }
    rewrite all_tasks_own_summaries in Hss.
    apply (Permutation_map Some) in Hss. by rewrite map_map in Hss.
Qed.

Lemma summaries_are_permuted_not_lost_witness :
  exists processed,
    snd (build_multimodal_elements_streaming
           (Scenario.env_with 0 [1; 0]%nat None Scenario.describing_model Scenario.top_k)
           "report.docx" Scenario.report) = Ok processed
    /\ map doc_id processed = ["id-0"; "id-1"]
    /\ map summary processed
       ≡ₚ [Some "Image content could not be analyzed.";
           Some "This document/research paper discusses: Revenue grew 12% in Q3."].
Proof.
  destruct (summaries_are_permuted_not_lost
              (Scenario.env_with 0 [1; 0]%nat None Scenario.describing_model Scenario.top_k)
              "report.docx" Scenario.report) as (processed & Hb & Hids & _ & Hperm).
  - vm_compute. apply Permutation_swap.
  - exists processed. split; [exact Hb|]. split; [rewrite Hids; reflexivity|exact Hperm].
Defined.
